(** * Deck card-count tools

    A shallow embedding of the two command-line scripts of the repository,
    [firebase/get-card-counts.py] (the archive counter) and
    [firebase/update-catalog-counts.py] (the catalog updater), and the
    properties their design document states about them.

    Layout: the Python values and primitives the scripts use ([Py]), the
    documents on disk ([Disk]), the updater ([Updater]), the counter
    ([Counter]), then the lemmas and the theorems. *)

From Stdlib Require Import ZArith Ascii String List Lia Bool.
From stdpp Require Import base strings gmap list.

(** ** Python values and primitives *)

Module Py.

(** A Python [float] read from a JSON document: what [json.load] makes of
    the literal [NaN], an infinity (what it makes of [Infinity] or of
    [1e999]) or the finite value [(-1)^neg * m * 2^e]. *)
Inductive pyfloat :=
| FNan
| FInf (neg : bool)
| FFin (neg : bool) (m : N) (e : Z).

(** What [json.load] returns.  A [str] is held as the bytes of its UTF-8
    encoding; a [dict] as its items in insertion order, which is the order
    [json.dump] writes them in. *)
#[local] Set Warnings "-register-all".
Inductive json :=
| JNull
| JBool (b : bool)
| JInt (n : Z)
| JFloat (f : pyfloat)
| JStr (s : string)
| JArr (items : list json)
| JObj (fields : list (string * json)).
#[local] Set Warnings "+register-all".

Inductive exn :=
| KeyError
| TypeError
| AttributeError
| IndexError
| OverflowError
| ValueError
| JSONDecodeError
| UnicodeDecodeError
| OSError
| BadZipFile
| DatabaseError
| SystemExit (code : Z).

Inductive outcome (A : Type) :=
| Ok (a : A)
| Raise (e : exn).
Arguments Ok {A} a.
Arguments Raise {A} e.

(** A computation that emits events of type [E] (lines printed, files
    written) and then returns or raises.  The events emitted before an
    exception are kept. *)
Definition M (E A : Type) : Type := (list E * outcome A)%type.

Definition ret {E A} (a : A) : M E A := ([], Ok a).

Definition bind {E A B} (m : M E A) (k : A -> M E B) : M E B :=
  match m with
  | (l, Ok a) => let '(l', r) := k a in (l ++ l', r)
  | (l, Raise e) => (l, Raise e)
  end.

Definition raise {E A} (e : exn) : M E A := ([], Raise e).

Definition emit {E} (ev : E) : M E unit := ([ev], Ok tt).

(** [try: body / except Exception as e: handler e].  [SystemExit] is not an
    [Exception] and passes through. *)
Definition try_except {E A} (body : M E A) (handler : exn -> M E A) : M E A :=
  match body with
  | (l, Ok a) => (l, Ok a)
  | (l, Raise (SystemExit c)) => (l, Raise (SystemExit c))
  | (l, Raise e) => let '(l', r) := handler e in (l ++ l', r)
  end.

Declare Scope py_scope.
Delimit Scope py_scope with py.
Notation "x <- m ;; k" := (bind m (fun x => k))
  (at level 100, m at next level, k at level 200, right associativity) : py_scope.
Notation "m ;; k" := (bind m (fun _ => k))
  (at level 100, k at level 200, only parsing, right associativity) : py_scope.
Open Scope py_scope.

(** *** Dictionaries *)

(** [k in d], [d.get(k)] *)
Fixpoint dict_get (k : string) (d : list (string * json)) : option json :=
  match d with
  | [] => None
  | (k', v) :: rest => if String.eqb k k' then Some v else dict_get k rest
  end.

(** [d[k] = v]: an existing key keeps its place, a new key goes last. *)
Fixpoint dict_set (k : string) (v : json) (d : list (string * json))
  : list (string * json) :=
  match d with
  | [] => [(k, v)]
  | (k', v') :: rest =>
      if String.eqb k k' then (k', v) :: rest else (k', v') :: dict_set k v rest
  end.

(** [j[k]] for a [str] key [k]. *)
Definition subscript {E} (j : json) (k : string) : M E json :=
  match j with
  | JObj d =>
      match dict_get k d with
      | Some v => ret v
      | None => raise KeyError
      end
  | _ => raise TypeError
  end.

(** [j.get(k, default)] *)
Definition get_default {E} (j : json) (k : string) (default : json) : M E json :=
  match j with
  | JObj d =>
      match dict_get k d with
      | Some v => ret v
      | None => ret default
      end
  | _ => raise AttributeError
  end.

(** [j[k] = v] for a [dict] [j]; the updated dictionary is returned. *)
Definition store {E} (j : json) (k : string) (v : json) : M E json :=
  match j with
  | JObj d => ret (JObj (dict_set k v d))
  | _ => raise TypeError
  end.

(** The items a [for] loop (or a comprehension) runs over.  A [dict] yields
    its keys and a [str] its characters, each of them a [str]; the byte
    representation yields one item per byte where Python yields one per
    character, which no caller here can tell apart: the first item is
    subscripted with a [str] and that raises. *)
Definition iterate {E} (j : json) : M E (list json) :=
  match j with
  | JArr items => ret items
  | JObj d => ret (map (fun kv => JStr (fst kv)) d)
  | JStr s => ret (map (fun c => JStr (String c EmptyString)) (list_ascii_of_string s))
  | _ => raise TypeError
  end.

(** *** Comparison *)

(** The exact value of a number: not a number, an infinity or [m * 2^e]. *)
Inductive number :=
| NNan
| NInf (neg : bool)
| NVal (m e : Z).

(** [bool] is a subclass of [int]: [True == 1]. *)
Definition as_number (j : json) : option number :=
  match j with
  | JBool b => Some (NVal (if b then 1 else 0) 0)
  | JInt n => Some (NVal n 0)
  | JFloat FNan => Some NNan
  | JFloat (FInf s) => Some (NInf s)
  | JFloat (FFin s m e) => Some (NVal (if s then - Z.of_N m else Z.of_N m) e)
  | _ => None
  end.

(** Python compares an [int] and a [float] by their exact values; [nan]
    is equal to no number, itself included. *)
Definition number_eqb (a b : number) : bool :=
  match a, b with
  | NInf s, NInf t => Bool.eqb s t
  | NVal m e, NVal m' e' =>
      let k := Z.min e e' in
      (m * 2 ^ (e - k) =? m' * 2 ^ (e' - k))%Z
  | _, _ => false
  end.

Definition is_nan (j : json) : bool :=
  match j with
  | JFloat FNan => true
  | _ => false
  end.

(** [a == b].  A [list] and a [dict] compare their items with [is] before
    [==], and [json.load] returns one and the same object,
    [json.decoder.NaN], for every [NaN] literal: inside a list or a
    dictionary [nan] is equal to [nan], where [nan == nan] itself is
    false. *)
Fixpoint py_eq (a b : json) : bool :=
  match a, b with
  | JNull, JNull => true
  | JStr s, JStr t => String.eqb s t
  | JArr l, JArr l' =>
      (fix items_eq (l l' : list json) : bool :=
         match l, l' with
         | [], [] => true
         | x :: r, y :: r' => (is_nan x && is_nan y || py_eq x y) && items_eq r r'
         | _, _ => false
         end) l l'
  | JObj d, JObj d' =>
      (length d =? length d')%nat &&
      (fix fields_eq (d : list (string * json)) : bool :=
         match d with
         | [] => true
         | (k, v) :: r =>
             match dict_get k d' with
             | Some w => is_nan v && is_nan w || py_eq v w
             | None => false
             end && fields_eq r
         end) d
  | _, _ =>
      match as_number a, as_number b with
      | Some x, Some y => number_eqb x y
      | _, _ => false
      end
  end.

(** [a != b] *)
Definition py_ne (a b : json) : bool := negb (py_eq a b).

(** *** Division by [1024 * 1024]

    [int / int] is correctly rounded and raises [OverflowError] when the
    quotient rounds to [2^1024] or more, that is from [2^1024 - 2^970] on;
    [float / int] never raises; anything that is not a number raises
    [TypeError].  The quotient itself is only displayed: the model keeps
    whether the division raises. *)
Definition mib : Z := 1024 * 1024.

Definition float_limit : Z := 2 ^ 1024 - 2 ^ 970.

Definition true_div_mib {E} (v : json) : M E unit :=
  match v with
  | JInt n =>
      if (Z.abs n <? float_limit * mib)%Z then ret tt else raise OverflowError
  | JBool _ => ret tt
  | JFloat _ => ret tt
  | _ => raise TypeError
  end.

(** *** Strings and lists *)

(** [s.split(sep)] for a one-character separator: never empty, [''.split(sep)]
    is [['']].  (The last branch is never taken; see [split_nonempty].) *)
Fixpoint split (sep : ascii) (s : string) : list string :=
  match s with
  | EmptyString => [EmptyString]
  | String c rest =>
      if Ascii.eqb c sep then EmptyString :: split sep rest
      else
        match split sep rest with
        | seg :: segs => String c seg :: segs
        | [] => [String c EmptyString]
        end
  end.

(** [l[0]] *)
Definition index_first {E A} (l : list A) : M E A :=
  match l with
  | x :: _ => ret x
  | [] => raise IndexError
  end.

(** [l[-1]] *)
Definition index_last {E A} (l : list A) : M E A :=
  match last l with
  | Some x => ret x
  | None => raise IndexError
  end.

(** [c in s] *)
Definition contains (c : ascii) (s : string) : bool :=
  existsb (Ascii.eqb c) (list_ascii_of_string s).

(** *** [urllib.parse.unquote]

    The library splits its argument into runs of ASCII and of other
    characters.  An ASCII run is percent-decoded to bytes
    ([unquote_to_bytes]) and the bytes are read as UTF-8 with
    [errors='replace']; the other runs are kept.  On the UTF-8 bytes of the
    string, reading as UTF-8 with replacement keeps every well-formed
    sequence and puts the bytes of U+FFFD for every error the decoder
    reports. *)

(** The value of a hexadecimal digit, [0-9A-Fa-f]. *)
Definition hex_digit (c : ascii) : option N :=
  let n := N_of_ascii c in
  if (48 <=? n)%N && (n <=? 57)%N then Some (n - 48)%N
  else if (65 <=? n)%N && (n <=? 70)%N then Some (n - 55)%N
  else if (97 <=? n)%N && (n <=? 102)%N then Some (n - 87)%N
  else None.

(** One item after a ['%']: the byte of its two leading hexadecimal digits
    and the rest of the item, or, when it does not begin with two such
    digits, the ['%'] and the item unchanged. *)
Definition unquote_item (item : string) : string :=
  match item with
  | String a (String b rest) =>
      match hex_digit a, hex_digit b with
      | Some x, Some y => String (ascii_of_N (16 * x + y)) rest
      | _, _ => String "%" item
      end
  | _ => String "%" item
  end.

Definition unquote_to_bytes (s : string) : string :=
  match split "%" s with
  | first :: (_ :: _) as items => first ++ String.concat "" (map unquote_item items)
  | _ => s
  end.

(** U+FFFD in UTF-8: EF BF BD. *)
Definition replacement : string :=
  String (ascii_of_N 239) (String (ascii_of_N 191) (String (ascii_of_N 189) EmptyString)).

Definition is_continuation (c : ascii) : bool :=
  let n := N_of_ascii c in (128 <=? n)%N && (n <? 192)%N.

(** The second byte of a three-byte sequence: a continuation byte, not
    below A0 after E0 (overlong) and not from A0 on after ED (surrogate). *)
Definition second_of_three (b0 : N) (c1 : ascii) : bool :=
  is_continuation c1 &&
  negb (if (N_of_ascii c1 <? 160)%N then (b0 =? 224)%N else (b0 =? 237)%N).

(** The second byte of a four-byte sequence: a continuation byte, not
    below 90 after F0 (overlong) and not from 90 on after F4 (above
    U+10FFFF). *)
Definition second_of_four (b0 : N) (c1 : ascii) : bool :=
  is_continuation c1 &&
  negb (if (N_of_ascii c1 <? 144)%N then (b0 =? 240)%N else (b0 =? 244)%N).

(** [bytes.decode('utf-8', 'replace')], on the UTF-8 bytes of the result.
    An invalid start byte is an error of one byte; an invalid continuation
    byte ends an error that covers the bytes before it; a sequence cut short
    by the end of the input is one error. *)
Fixpoint utf8_replace (s : string) : string :=
  match s with
  | EmptyString => EmptyString
  | String c0 s1 =>
      let b0 := N_of_ascii c0 in
      if (b0 <? 128)%N then String c0 (utf8_replace s1)
      else if (b0 <? 194)%N || (244 <? b0)%N then replacement ++ utf8_replace s1
      else if (b0 <? 224)%N then
        match s1 with
        | EmptyString => replacement
        | String c1 s2 =>
            if is_continuation c1
            then String c0 (String c1 (utf8_replace s2))
            else replacement ++ utf8_replace s1
        end
      else if (b0 <? 240)%N then
        match s1 with
        | EmptyString => replacement
        | String c1 s2 =>
            if second_of_three b0 c1 then
              match s2 with
              | EmptyString => replacement
              | String c2 s3 =>
                  if is_continuation c2
                  then String c0 (String c1 (String c2 (utf8_replace s3)))
                  else replacement ++ utf8_replace s2
              end
            else replacement ++ utf8_replace s1
        end
      else
        match s1 with
        | EmptyString => replacement
        | String c1 s2 =>
            if second_of_four b0 c1 then
              match s2 with
              | EmptyString => replacement
              | String c2 s3 =>
                  if is_continuation c2 then
                    match s3 with
                    | EmptyString => replacement
                    | String c3 s4 =>
                        if is_continuation c3
                        then String c0 (String c1 (String c2 (String c3 (utf8_replace s4))))
                        else replacement ++ utf8_replace s3
                    end
                  else replacement ++ utf8_replace s2
              end
            else replacement ++ utf8_replace s1
        end
  end.

Definition is_ascii_char (c : ascii) : bool := (N_of_ascii c <? 128)%N.

Definition unquote_run (run : string) : string :=
  utf8_replace (unquote_to_bytes run).

(** [run] is the ASCII run read so far. *)
Fixpoint unquote_parts (run : string) (s : string) : string :=
  match s with
  | EmptyString => unquote_run run
  | String c rest =>
      if is_ascii_char c then unquote_parts (run ++ String c EmptyString) rest
      else unquote_run run ++ String c (unquote_parts EmptyString rest)
  end.

(** [urllib.parse.unquote(s)]: a string without ['%'] is returned as it is. *)
Definition unquote (s : string) : string :=
  if contains "%" s then unquote_parts EmptyString s else s.

End Py.

(** ** Documents on disk *)

Module Disk.
Import Py.

(** The bytes of a file, as far as [json.load] is concerned: a document,
    with the value it is read as, or a file that is not read, with the
    exception that reading it raises. *)
Inductive content :=
| Unreadable (e : exn)
| Doc (j : json).

(** Text that is not a JSON document. *)
Definition NotJson : content := Unreadable JSONDecodeError.

(** Bytes that [f.read()] cannot decode to text. *)
Definition NotText : content := Unreadable UnicodeDecodeError.

(** A JSON text with an integer literal of more digits than [int]
    converts: 4300, where the interpreter has that limit. *)
Definition LongInteger : content := Unreadable ValueError.

(** [json.load(f)] *)
Definition load {E} (c : content) : M E json :=
  match c with
  | Doc j => ret j
  | Unreadable e => raise e
  end.

End Disk.

(** ** The catalog updater: [update-catalog-counts.py] *)

Module Updater.
Import Py Disk.

(** The two files the script names, next to the script itself:
    [actual-card-counts.json] and [hosting/decks/decks.json].  [None] is a
    path at which nothing exists. *)
Record files := {
  counts_file : option content;
  catalog_file : option content;
}.

(** What the script prints; a message carries the values its text is
    formatted from. *)
Inductive msg :=
| CountsNotFound
| CatalogNotFound
| DeckChanged (name : json)
| CardsChanged (old_count new_count : json)
| SizeChanged (old_size new_size : json)
| UpdatedDecks (updated : nat)
| AlreadyAccurate.

Inductive event :=
| Print (m : msg)
| WriteCatalog (catalog : json).

(** Lines 39-45: the file name a download URL ends in. *)
Definition derive_filename {E} (url : json) : M E string :=
  match url with
  | JStr url =>
      filename <- index_last (split "/" url) ;;
      filename <- index_first (split "?" filename) ;;
      let filename := unquote filename in
      index_last (split "/" filename)
  | _ => raise AttributeError
  end.

(** Line 29, one item of the comprehension.  A key that is not a [str] can
    never be found by the [str] lookups of line 47, so it is not kept; a
    [list] or a [dict] cannot be a key at all. *)
Definition count_entry {E} (item : json) (count_map : gmap string (json * json))
  : M E (gmap string (json * json)) :=
  file <- subscript item "file" ;;
  count <- subscript item "count" ;;
  size <- subscript item "size" ;;
  match file with
  | JStr name => ret (<[name := (count, size)]> count_map)
  | JArr _ => raise TypeError
  | JObj _ => raise TypeError
  | _ => ret count_map
  end.

Fixpoint build_count_map {E} (items : list json) (count_map : gmap string (json * json))
  : M E (gmap string (json * json)) :=
  match items with
  | [] => ret count_map
  | item :: rest =>
      count_map <- count_entry item count_map ;;
      build_count_map rest count_map
  end.

(** Lines 38-64, the body of the loop: the deck as the body leaves it and
    whether [updated] was incremented. *)
Definition update_deck (count_map : gmap string (json * json)) (deck : json)
  : M event (json * bool) :=
  url <- subscript deck "downloadUrl" ;;
  filename <- derive_filename url ;;
  match count_map !! filename with
  | Some (new_count, new_size) =>
      old_count <- get_default deck "cardCount" (JInt 0) ;;
      old_size <- get_default deck "size" (JInt 0) ;;
      if py_ne old_count new_count || py_ne old_size new_size then
        name <- subscript deck "name" ;;
        emit (Print (DeckChanged name)) ;;
        (if py_ne old_count new_count
         then emit (Print (CardsChanged old_count new_count))
         else ret tt) ;;
        (if py_ne old_size new_size
         then true_div_mib old_size ;;
              true_div_mib new_size ;;
              emit (Print (SizeChanged old_size new_size))
         else ret tt) ;;
        deck <- store deck "cardCount" new_count ;;
        deck <- store deck "size" new_size ;;
        ret (deck, true)
      else ret (deck, false)
  | None => ret (deck, false)
  end.

(** Lines 36-64: the decks after the loop and the final [updated]. *)
Fixpoint update_decks (count_map : gmap string (json * json)) (decks : list json)
  (updated : nat) : M event (list json * nat) :=
  match decks with
  | [] => ret ([], updated)
  | deck :: rest =>
      r <- update_deck count_map deck ;;
      let '(deck, changed) := r in
      r <- update_decks count_map rest (if changed then S updated else updated) ;;
      let '(rest, updated) := r in
      ret (deck :: rest, updated)
  end.

(** The catalog after the loop has changed the decks it ran over in place.
    Only a list holds decks that can have changed: over a [dict] or a [str]
    the loop either runs no step or raises. *)
Definition with_decks (catalog decks_value : json) (decks : list json) : json :=
  match catalog, decks_value with
  | JObj top, JArr _ => JObj (dict_set "decks" (JArr decks) top)
  | _, _ => catalog
  end.

(** Lines 24-64. *)
Definition reconcile (counts catalog : content) : M event (json * nat) :=
  actual_counts <- load counts ;;
  items <- iterate actual_counts ;;
  count_map <- build_count_map items ∅ ;;
  catalog <- load catalog ;;
  decks_value <- subscript catalog "decks" ;;
  decks <- iterate decks_value ;;
  r <- update_decks count_map decks 0 ;;
  let '(decks, updated) := r in
  ret (with_decks catalog decks_value decks, updated).

Definition main (fs : files) : M event unit :=
  match counts_file fs with
  | None => emit (Print CountsNotFound)
  | Some counts =>
      match catalog_file fs with
      | None => emit (Print CatalogNotFound)
      | Some catalog =>
          r <- reconcile counts catalog ;;
          let '(catalog, updated) := r in
          if (0 <? updated)%nat then
            emit (WriteCatalog catalog) ;;
            emit (Print (UpdatedDecks updated))
          else emit (Print AlreadyAccurate)
      end
  end.

(** The files once the events of a run have taken place.  Writing the
    catalog replaces the whole document ([open(path, 'w')], [json.dump]). *)
Definition apply_event (fs : files) (ev : event) : files :=
  match ev with
  | Print _ => fs
  | WriteCatalog catalog =>
      {| counts_file := counts_file fs; catalog_file := Some (Doc catalog) |}
  end.

Definition files_after (fs : files) (trace : list event) : files :=
  fold_left apply_event trace fs.

Record run := {
  trace : list event;
  status : outcome unit;
  disk : files;
}.

Definition execute (fs : files) : run :=
  let '(t, st) := main fs in
  {| trace := t; status := st; disk := files_after fs t |}.

End Updater.

(** ** The archive counter: [get-card-counts.py] *)

Module Counter.
Import Py Disk.

(** What lines 37-41 do with an entry of the extraction directory:
    [sqlite3.connect], [SELECT COUNT( * ) FROM cards], [fetchone()[0]].  The
    count is the integer SQLite returns; anything that is not a database
    with a [cards] table raises. *)
Inductive sqlite_result :=
| Cards (count : Z)
| NoCards.

(** The body of a file, as [zipfile] sees it: the names [extractall] leaves
    at the top of the temporary directory, or a file it cannot extract. *)
Inductive archive :=
| BadArchive
| Extracted (entries : gmap string sqlite_result).

(** [st_size] is an [off_t]: a file size is below [2^63]. *)
Record off_t := {
  off_val : Z;
  off_range : ((0 <=? off_val)%Z && (off_val <? 2 ^ 63)%Z) = true;
}.

(** A directory tree as [os.walk] lists it: the entries of a directory it
    lists as files and those it lists as subdirectories, in the order
    [os.scandir] yields them.  A file carries the size and the body that
    [os.stat] and [zipfile] find where they reach it; whether [os.stat]
    reaches a path is told apart, by [stat_fails]. *)
#[local] Set Warnings "-register-all".
Inductive node :=
| File (st_size : off_t) (body : archive)
| Dir (children : list (string * node)).
#[local] Set Warnings "+register-all".

Inductive msg :=
| Usage
| DirectoryNotFound (decks_path : string)
| Scanning (decks_path : string)
| NoArchives
| FoundArchives (n : nat)
| Rule
| Progress (file_name : string)
| Counted (count file_size : Z)
| Failed
| ReadDecks (read found : nat)
| FolderReport (results : list json)
| Saved.

Inductive event :=
| Print (m : msg)
| PrintError (e : exn)
| WriteResults (results : json).

(** *** [get_card_count] *)

Definition db_names : list string := ["collection.anki21"; "collection.anki2"].

(** Lines 22-23. *)
Definition extractall {E} (apkg : archive) : M E (gmap string sqlite_result) :=
  match apkg with
  | Extracted entries => ret entries
  | BadArchive => raise BadZipFile
  end.

(** Lines 26-31: the first of the names that exists, [None] for none. *)
Fixpoint find_db (names : list string) (entries : gmap string sqlite_result)
  : option string :=
  match names with
  | [] => None
  | db_name :: rest =>
      match entries !! db_name with
      | Some _ => Some db_name
      | None => find_db rest entries
      end
  end.

(** Lines 37-41. *)
Definition count_cards {E} (entries : gmap string sqlite_result) (db_path : string)
  : M E Z :=
  match entries !! db_path with
  | Some (Cards count) => ret count
  | _ => raise DatabaseError
  end.

Definition get_card_count (apkg : archive) : M event (option Z) :=
  try_except
    (entries <- extractall apkg ;;
     match find_db db_names entries with
     | None => ret None
     | Some db_path =>
         count <- count_cards entries db_path ;;
         ret (Some count)
     end)
    (fun e => emit (PrintError e) ;; ret None).

(** *** Paths *)

(** [s.endswith(suffix)] *)
Fixpoint endswith (s suffix : string) : bool :=
  if String.eqb s suffix then true
  else
    match s with
    | EmptyString => false
    | String _ rest => endswith rest suffix
    end.

(** [os.path.join(a, b)] *)
Definition join (a b : string) : string :=
  match b with
  | String "/" _ => b
  | _ => if String.eqb a "" || endswith a "/" then a ++ b else a ++ "/" ++ b
  end.

(** [p[i:]] for [i = p.rfind(sep) + 1] *)
Fixpoint after_last (sep : ascii) (p : string) : string :=
  match p with
  | EmptyString => EmptyString
  | String c rest =>
      if contains sep rest then after_last sep rest
      else if Ascii.eqb c sep then rest
      else p
  end.

(** [p[:i]] for [i = p.rfind(sep) + 1] *)
Fixpoint up_to_last (sep : ascii) (p : string) : string :=
  match p with
  | EmptyString => EmptyString
  | String c rest =>
      if contains sep rest then String c (up_to_last sep rest)
      else if Ascii.eqb c sep then String c EmptyString
      else EmptyString
  end.

(** [s.rstrip(sep)] *)
Fixpoint rstrip (sep : ascii) (s : string) : string :=
  match s with
  | EmptyString => EmptyString
  | String c rest =>
      match rstrip sep rest with
      | EmptyString => if Ascii.eqb c sep then EmptyString else String c EmptyString
      | kept => String c kept
      end
  end.

(** [os.path.basename(p)] *)
Definition basename (p : string) : string := after_last "/" p.

(** [os.path.dirname(p)] *)
Definition dirname (p : string) : string :=
  let head := up_to_last "/" p in
  if negb (String.eqb head "") && negb (String.eqb (rstrip "/" head) "")
  then rstrip "/" head
  else head.

(** *** Discovery *)

(** A path the walk has found, with the names that lead to it from the
    directory given on the command line and the file that is there. *)
Record found := {
  file_path : string;
  rel_parts : list string;
  file : node;
}.

(** Lines 63-66: [os.walk] yields a directory before its subdirectories,
    and the loop keeps the files of each directory whose name ends in
    [.apkg].  Walking something that is not a directory yields nothing. *)
Fixpoint walk (root : string) (rel : list string) (n : node) : list found :=
  match n with
  | File _ _ => []
  | Dir children =>
      (fix files (cs : list (string * node)) : list found :=
         match cs with
         | [] => []
         | (name, child) :: rest =>
             match child with
             | File _ _ =>
                 if endswith name ".apkg"
                 then {| file_path := join root name;
                         rel_parts := rel ++ [name];
                         file := child |} :: files rest
                 else files rest
             | Dir _ => files rest
             end
         end) children
      ++
      (fix dirs (cs : list (string * node)) : list found :=
         match cs with
         | [] => []
         | (name, child) :: rest =>
             match child with
             | File _ _ => dirs rest
             | Dir _ => walk (join root name) (rel ++ [name]) child ++ dirs rest
             end
         end) children
  end.

(** [sorted(apkg_files)]: by path, in the order of the characters, which
    is the order of the UTF-8 bytes; equal paths keep their order. *)
Definition path_le (a b : found) : bool := String.leb (file_path a) (file_path b).

Fixpoint insert_sorted (x : found) (l : list found) : list found :=
  match l with
  | [] => [x]
  | y :: rest => if path_le x y then x :: l else y :: insert_sorted x rest
  end.

Definition sorted (l : list found) : list found := fold_right insert_sorted [] l.

(** Where [os.stat] fails.  [stat_fails p] holds for a path that [os.stat]
    cannot resolve: a symbolic link to nothing, which [os.walk] lists among
    the files of its directory; an entry of a directory that can be listed
    but not searched.  There [os.stat] raises [FileNotFoundError] or
    [PermissionError], an [OSError].  [no_failure] is a disk on which it
    fails nowhere. *)
Definition no_failure : string -> bool := fun _ => false.

(** [os.path.exists(p)] is whether [os.stat(p)] returns; [at_path p] is
    what is there when it does. *)
Definition exists_at (stat_fails : string -> bool) (at_path : string -> option node)
  (p : string) : option node :=
  if stat_fails p then None else at_path p.

(** The size [os.stat] gives for a file it reaches.  The walk finds files
    only; the other branch, here and in [contents], is never reached. *)
Definition st_size (f : found) : Z :=
  match file f with
  | File st_size _ => off_val st_size
  | Dir _ => 0
  end.

(** [os.path.getsize(file_path)], which is [os.stat(file_path).st_size]. *)
Definition getsize {E} (stat_fails : string -> bool) (f : found) : M E Z :=
  if stat_fails (file_path f) then raise OSError else ret (st_size f).

(** What [zipfile.ZipFile(file_path)] opens. *)
Definition contents (f : found) : archive :=
  match file f with
  | File _ body => body
  | Dir _ => BadArchive
  end.

(** [os.path.relpath(file_path, decks_path)] for a path the walk built
    below [decks_path]: the names that lead to it, joined. *)
Definition relpath (f : found) : string := String.concat "/" (rel_parts f).

(** *** [main] *)

(** Lines 78-98, the body of the loop: [results] after it.  Line 81 is
    outside every [try]: where [os.stat] fails the body raises, before it
    has printed anything for the archive. *)
Definition count_one (stat_fails : string -> bool) (f : found) (results : list json)
  : M event (list json) :=
  let rel_path := relpath f in
  let file_name := basename (file_path f) in
  let folder := basename (dirname (file_path f)) in
  file_size <- getsize stat_fails f ;;
  true_div_mib (JInt file_size) ;;
  emit (Print (Progress file_name)) ;;
  count <- get_card_count (contents f) ;;
  match count with
  | Some count =>
      emit (Print (Counted count file_size)) ;;
      ret (results ++ [JObj [("folder", JStr folder);
                             ("file", JStr file_name);
                             ("path", JStr rel_path);
                             ("count", JInt count);
                             ("size", JInt file_size)]])
  | None =>
      emit (Print Failed) ;;
      ret results
  end.

(** Lines 77-98, the loop. *)
Fixpoint count_each (stat_fails : string -> bool) (files : list found)
  (results : list json) : M event (list json) :=
  match files with
  | [] => ret results
  | f :: rest =>
      results <- count_one stat_fails f results ;;
      count_each stat_fails rest results
  end.

(** The loop on a disk on which [os.stat] fails nowhere. *)
Definition count_all (files : list found) (results : list json) : M event (list json) :=
  count_each no_failure files results.

(** [sys.argv[1]] *)
Definition argument {E} (argv : list string) : M E string :=
  match argv !! 1%nat with
  | Some a => ret a
  | None => raise IndexError
  end.

(** The disk is [stat_fails] and [at_path]: [at_path p] is what is at [p],
    if anything.  Lines 103-116 print the report by folder,
    [FolderReport], from [results] alone. *)
Definition main (stat_fails : string -> bool) (argv : list string)
  (at_path : string -> option node) : M event unit :=
  if (length argv <? 2)%nat then
    emit (Print Usage) ;;
    raise (SystemExit 1)
  else
    decks_path <- argument argv ;;
    match exists_at stat_fails at_path decks_path with
    | None =>
        emit (Print (DirectoryNotFound decks_path)) ;;
        raise (SystemExit 1)
    | Some top =>
        emit (Print (Scanning decks_path)) ;;
        let apkg_files := walk decks_path [] top in
        match apkg_files with
        | [] =>
            emit (Print NoArchives) ;;
            raise (SystemExit 1)
        | _ :: _ =>
            emit (Print (FoundArchives (length apkg_files))) ;;
            emit (Print Rule) ;;
            results <- count_each stat_fails (sorted apkg_files) [] ;;
            emit (Print Rule) ;;
            emit (Print (ReadDecks (length results) (length apkg_files))) ;;
            emit (Print (FolderReport results)) ;;
            emit (WriteResults (JArr results)) ;;
            emit (Print Saved)
        end
    end.

(** The status the process ends with: 0 when [main] returns, the argument
    of [sys.exit], 1 after any other exception. *)
Definition exit_code (st : outcome unit) : Z :=
  match st with
  | Ok _ => 0
  | Raise (SystemExit code) => code
  | Raise _ => 1
  end.

(** The results document once the events of a run have taken place. *)
Definition apply_event (results_file : option content) (ev : event) : option content :=
  match ev with
  | WriteResults results => Some (Doc results)
  | _ => results_file
  end.

Definition results_after (results_file : option content) (trace : list event)
  : option content :=
  fold_left apply_event trace results_file.

Record run := {
  trace : list event;
  exit : Z;
  results_file : option content;
}.

Definition execute_on (stat_fails : string -> bool) (argv : list string)
  (at_path : string -> option node) (results_before : option content) : run :=
  let '(t, st) := main stat_fails argv at_path in
  {| trace := t; exit := exit_code st; results_file := results_after results_before t |}.

(** A run on a disk on which [os.stat] fails nowhere. *)
Definition execute (argv : list string) (at_path : string -> option node)
  (results_before : option content) : run :=
  execute_on no_failure argv at_path results_before.

End Counter.

(** ** The design document's wording

    The definitions the properties are stated with: the design's
    description of the lookup key, of the decision the updater takes for a
    deck, and of the inputs on which a run goes through. *)

Module Design.
Import Py Disk.

(** "The segment after the final [/]": read the string from the left and
    start the segment again after every [/]. *)
Fixpoint segment_from (seg s : string) : string :=
  match s with
  | EmptyString => seg
  | String c rest =>
      if Ascii.eqb c "/" then segment_from EmptyString rest
      else segment_from (seg ++ String c EmptyString) rest
  end.

Definition final_segment (s : string) : string := segment_from EmptyString s.

(** "Stripping any [?]-delimited query-string suffix": what precedes the
    first [?]. *)
Fixpoint strip_query (s : string) : string :=
  match s with
  | EmptyString => EmptyString
  | String c rest =>
      if Ascii.eqb c "?" then EmptyString else String c (strip_query rest)
  end.

(** The lookup key of a download URL, in the design's four steps. *)
Definition lookup_key (url : string) : string :=
  final_segment (unquote (strip_query (final_segment url))).

(** The stored value of a field, a missing one counting as 0. *)
Definition stored (fields : list (string * json)) (k : string) : json :=
  match dict_get k fields with
  | Some v => v
  | None => JInt 0
  end.

(** The looked-up count and size of a deck: those the mapping holds for
    the lookup key of its download URL. *)
Definition looked_up (count_map : gmap string (json * json)) (deck : json)
  : option (json * json) :=
  match deck with
  | JObj fields =>
      match dict_get "downloadUrl" fields with
      | Some (JStr url) => count_map !! lookup_key url
      | _ => None
      end
  | _ => None
  end.

(** The key is present in the mapping, and the stored card count or the
    stored size differs from the looked-up value. *)
Definition needs_update (count_map : gmap string (json * json)) (deck : json) : bool :=
  match deck, looked_up count_map deck with
  | JObj fields, Some (new_count, new_size) =>
      py_ne (stored fields "cardCount") new_count
      || py_ne (stored fields "size") new_size
  | _, _ => false
  end.

(** The deck with [cardCount] and [size] overwritten by the looked-up
    values. *)
Definition overwritten (count_map : gmap string (json * json)) (deck : json) : json :=
  match deck, looked_up count_map deck with
  | JObj fields, Some (new_count, new_size) =>
      JObj (dict_set "size" new_size (dict_set "cardCount" new_count fields))
  | _, _ => deck
  end.

Definition reconciled (count_map : gmap string (json * json)) (deck : json) : json :=
  if needs_update count_map deck then overwritten count_map deck else deck.

(** A value the script can divide by [1024 * 1024]: a number, and an
    integer only below the limit of a [float]. *)
Definition divisible (v : json) : bool :=
  match v with
  | JInt n => (Z.abs n <? float_limit * mib)%Z
  | JBool _ => true
  | JFloat _ => true
  | _ => false
  end.

Definition has_key (k : string) (fields : list (string * json)) : bool :=
  match dict_get k fields with
  | Some _ => true
  | None => false
  end.

(** The decks on which the body of the loop raises nothing: a dictionary
    whose [downloadUrl] is a string and which, where it is to be updated,
    has a [name] and, where the size differs, sizes that can be divided. *)
Definition entry_ok (count_map : gmap string (json * json)) (deck : json) : bool :=
  match deck with
  | JObj fields =>
      match dict_get "downloadUrl" fields with
      | Some (JStr url) =>
          match count_map !! lookup_key url with
          | Some (new_count, new_size) =>
              if needs_update count_map deck then
                has_key "name" fields &&
                (if py_ne (stored fields "size") new_size
                 then divisible (stored fields "size") && divisible new_size
                 else true)
              else true
          | None => true
          end
      | _ => false
      end
  | _ => false
  end.

(** The fields of a deck other than [cardCount] and [size], in order. *)
Definition other_fields (fields : list (string * json)) : list (string * json) :=
  List.filter
    (fun kv => negb (String.eqb (fst kv) "cardCount") && negb (String.eqb (fst kv) "size"))
    fields.

(** The file names of the records of a results document. *)
Definition record_file (item : json) : option string :=
  match item with
  | JObj fields =>
      match dict_get "file" fields with
      | Some (JStr name) => Some name
      | _ => None
      end
  | _ => None
  end.

(** The derived file name of the deck matches a record of the results. *)
Definition matches_record (items : list json) (deck : json) : Prop :=
  exists fields url item,
    deck = JObj fields /\
    dict_get "downloadUrl" fields = Some (JStr url) /\
    In item items /\
    record_file item = Some (lookup_key url).

(** What a run may do to a deck: nothing, or, for a deck that matches a
    record, change [cardCount] and [size] only. *)
Definition entry_frame (items : list json) (deck deck' : json) : Prop :=
  deck' = deck \/
  (matches_record items deck /\
   exists fields fields',
     deck = JObj fields /\ deck' = JObj fields' /\
     other_fields fields' = other_fields fields).

(** No dictionary of the document has a key twice, as in every value that
    [json.load] builds. *)
Fixpoint distinct_keys (fields : list (string * json)) : bool :=
  match fields with
  | [] => true
  | (k, _) :: rest => negb (has_key k rest) && distinct_keys rest
  end.

Fixpoint unique_keys (j : json) : bool :=
  match j with
  | JArr items =>
      (fix all (l : list json) : bool :=
         match l with
         | [] => true
         | x :: r => unique_keys x && all r
         end) items
  | JObj fields =>
      distinct_keys fields &&
      (fix all (l : list (string * json)) : bool :=
         match l with
         | [] => true
         | (_, v) :: r => unique_keys v && all r
         end) fields
  | _ => true
  end.

(** No record of the results document has the float [nan] as its count
    or as its size. *)
Definition record_without_nan (item : json) : bool :=
  match item with
  | JObj fields =>
      negb (match dict_get "count" fields with
            | Some count => is_nan count
            | None => false
            end)
      && negb (match dict_get "size" fields with
               | Some size => is_nan size
               | None => false
               end)
  | _ => true
  end.

Definition without_nan (counts : json) : bool :=
  match counts with
  | JArr items => forallb record_without_nan items
  | _ => true
  end.

(** The count the counter obtains from an archive, if it obtains one. *)
Definition count_of (f : Counter.found) : option Z :=
  match Counter.get_card_count (Counter.contents f) with
  | (_, Ok count) => count
  | (_, Raise _) => None
  end.

(** An archive from which the counter obtains a count. *)
Definition counted (f : Counter.found) : bool :=
  match count_of f with
  | Some _ => true
  | None => false
  end.

(** The record of an archive with a count. *)
Definition record_of (f : Counter.found) (count : Z) : json :=
  JObj [("folder", JStr (Counter.basename (Counter.dirname (Counter.file_path f))));
        ("file", JStr (Counter.basename (Counter.file_path f)));
        ("path", JStr (Counter.relpath f));
        ("count", JInt count);
        ("size", JInt (Counter.st_size f))].

(** The records of the archives with a count, in the order of the
    archives. *)
Definition records (files : list Counter.found) : list json :=
  flat_map
    (fun f =>
       match count_of f with
       | Some count => [record_of f count]
       | None => []
       end)
    files.

(** An archive found whose path [os.stat] cannot resolve. *)
Definition unreachable (stat_fails : string -> bool) (f : Counter.found) : bool :=
  stat_fails (Counter.file_path f).

(** The archive holds neither of the two database names. *)
Definition no_database (entries : gmap string Counter.sqlite_result) : Prop :=
  entries !! "collection.anki21" = None /\ entries !! "collection.anki2" = None.


Definition writes_results (ev : Counter.event) : bool :=
  match ev with
  | Counter.WriteResults _ => true
  | _ => false
  end.

Definition writes_catalog (ev : Updater.event) : bool :=
  match ev with
  | Updater.WriteCatalog _ => true
  | _ => false
  end.

(** *** The scenario of the design document

    A results document with the record of [French.apkg], and a catalog with
    one deck whose download URL ends in [/French.apkg?token=x]. *)

Definition french_results : json :=
  JArr [JObj [("folder", JStr "Languages"); ("file", JStr "French.apkg");
              ("path", JStr "Languages/French.apkg");
              ("count", JInt 1200); ("size", JInt 5242880)]].

Definition french_deck (prefix : string) (count size : json) : json :=
  JObj [("name", JStr "French");
        ("downloadUrl", JStr (prefix ++ "/French.apkg?token=x"));
        ("cardCount", count); ("size", size);
        ("language", JStr "fr")].

Definition french_catalog (prefix : string) (count size : json) : json :=
  JObj [("version", JInt 2); ("decks", JArr [french_deck prefix count size])].

Definition french_files (prefix : string) : Updater.files :=
  {| Updater.counts_file := Some (Doc french_results);
     Updater.catalog_file :=
       Some (Doc (french_catalog prefix (JInt 1000) (JInt 4000000))) |}.

(** The same scenario with a results document, as Python's [json] reads
    and writes it, whose record has [NaN] for its count. *)
Definition nan_results : json :=
  JArr [JObj [("folder", JStr "Languages"); ("file", JStr "French.apkg");
              ("path", JStr "Languages/French.apkg");
              ("count", JFloat FNan); ("size", JInt 5242880)]].

Definition nan_files : Updater.files :=
  {| Updater.counts_file := Some (Doc nan_results);
     Updater.catalog_file :=
       Some (Doc (french_catalog "https://cdn.example/decks"
                    (JInt 1000) (JInt 5242880))) |}.

(** *** A directory of archives

    [decks/] holds an archive with seven cards, a text file, and a
    subdirectory with an archive whose newer database has no card, an
    archive without a database and a file that is not an archive. *)

Definition sample_entries_cards : gmap string Counter.sqlite_result :=
  {[ "collection.anki2" := Counter.Cards 7; "media" := Counter.NoCards ]}.

Definition sample_entries_empty : gmap string Counter.sqlite_result :=
  {[ "collection.anki21" := Counter.Cards 0; "collection.anki2" := Counter.Cards 5 ]}.

Definition sample_entries_no_database : gmap string Counter.sqlite_result :=
  {[ "media" := Counter.NoCards ]}.

Definition sample_empty_file : Counter.node :=
  Counter.File {| Counter.off_val := 2048; Counter.off_range := eq_refl |}
    (Counter.Extracted sample_entries_empty).

Definition sample_no_database_file : Counter.node :=
  Counter.File {| Counter.off_val := 512; Counter.off_range := eq_refl |}
    (Counter.Extracted sample_entries_no_database).

Definition sample_tree : Counter.node :=
  Counter.Dir
    [("b.apkg", Counter.File {| Counter.off_val := 5242880; Counter.off_range := eq_refl |}
                  (Counter.Extracted sample_entries_cards));
     ("readme.txt", Counter.File {| Counter.off_val := 12; Counter.off_range := eq_refl |}
                      Counter.BadArchive);
     ("sub", Counter.Dir
               [("a.apkg", sample_empty_file);
                ("z.apkg", sample_no_database_file);
                ("y.apkg", Counter.File {| Counter.off_val := 3; Counter.off_range := eq_refl |}
                             Counter.BadArchive)])].

Definition sample_disk (p : string) : option Counter.node :=
  if String.eqb p "decks" then Some sample_tree else None.




Definition sample_empty_found : Counter.found :=
  {| Counter.file_path := "decks/sub/a.apkg";
     Counter.rel_parts := ["sub"; "a.apkg"];
     Counter.file := sample_empty_file |}.

Definition sample_no_database_found : Counter.found :=
  {| Counter.file_path := "decks/sub/z.apkg";
     Counter.rel_parts := ["sub"; "z.apkg"];
     Counter.file := sample_no_database_file |}.

End Design.

(** ** Further notions

    What the further properties of the two scripts are stated with. *)

Module Notions.
Import Py Disk Design.

(** The count and the size of a record of the results document. *)
Definition record_values (item : json) : option (json * json) :=
  match item with
  | JObj fields =>
      match dict_get "count" fields, dict_get "size" fields with
      | Some count, Some size => Some (count, size)
      | _, _ => None
      end
  | _ => None
  end.

(** What the body of the loop raises for a deck it cannot read: a deck
    that is not a dictionary, has no [downloadUrl], or whose [downloadUrl]
    is not a string. *)
Definition unreadable (deck : json) : option exn :=
  match deck with
  | JObj fields =>
      match dict_get "downloadUrl" fields with
      | None => Some KeyError
      | Some (JStr _) => None
      | Some _ => Some AttributeError
      end
  | _ => Some TypeError
  end.

(** [below top names n]: following [names] from the directory [top], one
    child at a time, leads to [n]. *)
Inductive below : Counter.node -> list string -> Counter.node -> Prop :=
| below_here (n : Counter.node) : below n [] n
| below_child (children : list (string * Counter.node)) (name : string)
    (child : Counter.node) (names : list string) (n : Counter.node) :
    In (name, child) children ->
    below child names n ->
    below (Counter.Dir children) (name :: names) n.

(** The path [os.walk] builds for [names] below [root]. *)
Definition joined (root : string) (names : list string) : string :=
  fold_left Counter.join names root.

(** Every path is at most the next one. *)
Fixpoint in_path_order (l : list Counter.found) : bool :=
  match l with
  | a :: (b :: _) as rest => Counter.path_le a b && in_path_order rest
  | _ => true
  end.

(** A name a directory entry can have, as far as the path functions are
    concerned: not empty, without [/]. *)
Definition entry_name (s : string) : bool :=
  negb (String.eqb s "") && negb (contains "/" s).



(** A string of ASCII characters only. *)
Definition all_ascii (s : string) : bool :=
  forallb is_ascii_char (list_ascii_of_string s).

(** The lines the updater prints for a deck: none for a deck it leaves as
    it is; for a deck it updates, the name, then a line for the count if
    the count differs and a line for the size if the size differs. *)
Definition change_lines (count_map : gmap string (json * json)) (deck : json)
  : list Updater.event :=
  match deck, looked_up count_map deck with
  | JObj fields, Some (new_count, new_size) =>
      if needs_update count_map deck then
        [Updater.Print (Updater.DeckChanged (stored fields "name"))]
        ++ (if py_ne (stored fields "cardCount") new_count
            then [Updater.Print
                    (Updater.CardsChanged (stored fields "cardCount") new_count)]
            else [])
        ++ (if py_ne (stored fields "size") new_size
            then [Updater.Print (Updater.SizeChanged (stored fields "size") new_size)]
            else [])
      else []
  | _, _ => []
  end.

(** *** Sample documents *)

Definition sample_record (file : string) (count size : Z) : json :=
  JObj [("folder", JStr "Languages"); ("file", JStr file);
        ("path", JStr ("Languages/" ++ file));
        ("count", JInt count); ("size", JInt size)].

(** Two records for [French.apkg], with another record between them. *)
Definition sample_repeated : list json :=
  [sample_record "French.apkg" 1100 5000000;
   sample_record "Spanish.apkg" 900 3000000;
   sample_record "French.apkg" 1200 5242880].

(** A disk on which the path given is an archive, not a directory. *)
Definition sample_disk_file (p : string) : option Counter.node :=
  if String.eqb p "decks/b.apkg"
  then Some (Counter.File {| Counter.off_val := 5242880; Counter.off_range := eq_refl |}
               (Counter.Extracted sample_entries_cards))
  else None.

Definition sample_url : string := "https://cdn.example/decks".

(** A deck without [downloadUrl]. *)
Definition sample_deck_without_url : json :=
  JObj [("name", JStr "Orphan"); ("cardCount", JInt 7)].

(** A catalog whose first deck needs the update and whose second deck
    cannot be read. *)
Definition sample_files_bad_deck : Updater.files :=
  {| Updater.counts_file := Some (Doc french_results);
     Updater.catalog_file :=
       Some (Doc (JObj [("decks",
                         JArr [french_deck sample_url (JInt 1000) (JInt 4000000);
                               sample_deck_without_url])])) |}.

(** The fields of the French deck, without [name]. *)
Definition sample_fields_without_name (count size : json) : list (string * json) :=
  [("downloadUrl", JStr (sample_url ++ "/French.apkg?token=x"));
   ("cardCount", count); ("size", size)].

Definition sample_files_empty_results : Updater.files :=
  {| Updater.counts_file := Some (Doc (JArr []));
     Updater.catalog_file :=
       Some (Doc (french_catalog sample_url (JInt 1000) (JInt 4000000))) |}.

End Notions.

(** ** Strings: the lookup key *)

Section LookupKey.
Import Py Disk Design.
Open Scope string_scope.

Lemma string_app_cons (c : ascii) (s t : string) :
  String c s ++ t = String c (s ++ t).
Proof. reflexivity. Qed.

Lemma string_app_nil_l (s : string) : "" ++ s = s.
Proof. reflexivity. Qed.

Lemma string_app_nil_r (s : string) : s ++ "" = s.
Proof.
  induction s as [|c s IH]; [reflexivity |].
  now rewrite string_app_cons, IH.
Qed.

Lemma string_app_assoc (a b c : string) : (a ++ b) ++ c = a ++ (b ++ c).
Proof.
  induction a as [|x a IH]; [reflexivity |].
  now rewrite !string_app_cons, IH.
Qed.

Lemma split_nonempty (sep : ascii) (s : string) : split sep s <> [].
Proof.
  destruct s as [|c s]; simpl; [discriminate |].
  destruct (Ascii.eqb c sep); [discriminate |].
  destruct (split sep s); discriminate.
Qed.

(** The last segment [split] finds is the one a scan from the left ends
    with; [seg] is what the scan has read of the current segment. *)
Lemma last_split_scan (s seg : string) :
  match split "/" s with
  | x :: r => last ((seg ++ x) :: r)
  | [] => None
  end = Some (segment_from seg s).
Proof.
  revert seg; induction s as [|c s IH]; intros seg; simpl.
  - now rewrite string_app_nil_r.
  - destruct (Ascii.eqb c "/") eqn:Hc.
    + specialize (IH ""). destruct (split "/" s) as [|x r] eqn:Hs.
      * now apply split_nonempty in Hs.
      * rewrite string_app_nil_l in IH. rewrite last_cons_cons. exact IH.
    + specialize (IH (seg ++ String c "")).
      destruct (split "/" s) as [|x r] eqn:Hs.
      * now apply split_nonempty in Hs.
      * rewrite string_app_assoc, string_app_cons, string_app_nil_l in IH.
        exact IH.
Qed.

Lemma index_last_split {E} (s : string) :
  index_last (E := E) (split "/" s) = ret (final_segment s).
Proof.
  unfold index_last, final_segment.
  pose proof (last_split_scan s "") as H.
  destruct (split "/" s) as [|x r]; [discriminate |].
  rewrite string_app_nil_l in H. now rewrite H.
Qed.

Lemma index_first_split {E} (s : string) :
  index_first (E := E) (split "?" s) = ret (strip_query s).
Proof.
  destruct s as [|c s]; simpl; [reflexivity |].
  destruct (Ascii.eqb c "?"); [reflexivity |].
  revert c; induction s as [|d s IH]; intros c; simpl; [reflexivity |].
  destruct (Ascii.eqb d "?"); simpl; [reflexivity |].
  specialize (IH d).
  destruct (split "?" s) as [|x r]; simpl in *.
  - injection IH as IH. now rewrite <- IH.
  - injection IH as IH. now rewrite <- IH.
Qed.

Lemma derive_filename_key {E} (url : string) :
  Updater.derive_filename (E := E) (JStr url) = ret (lookup_key url).
Proof.
  unfold Updater.derive_filename, lookup_key.
  rewrite index_last_split; simpl.
  rewrite index_first_split; simpl.
  rewrite index_last_split; simpl.
  reflexivity.
Qed.

Lemma segment_from_after_slash (prefix s seg : string) :
  segment_from seg (prefix ++ String "/" s) = segment_from "" s.
Proof.
  revert seg; induction prefix as [|c p IH]; intros seg.
  - reflexivity.
  - rewrite string_app_cons; simpl.
    destruct (Ascii.eqb c "/"); apply IH.
Qed.

Lemma final_segment_after_slash (prefix s : string) :
  final_segment (prefix ++ String "/" s) = final_segment s.
Proof. apply segment_from_after_slash. Qed.

Lemma lookup_key_after_slash (prefix s : string) :
  lookup_key (prefix ++ String "/" s) = lookup_key s.
Proof. unfold lookup_key. now rewrite final_segment_after_slash. Qed.

End LookupKey.

(** ** Computations *)

Section Computations.
Import Py.
Context {E : Type}.

Lemma bind_ret {A B} (a : A) (k : A -> M E B) : bind (ret a) k = k a.
Proof. unfold bind, ret. now destruct (k a). Qed.

Lemma bind_raise {A B} (e : exn) (k : A -> M E B) : bind (raise e) k = raise e.
Proof. reflexivity. Qed.

Lemma bind_emit {B} (ev : E) (k : unit -> M E B) :
  bind (emit ev) k = (ev :: fst (k tt), snd (k tt)).
Proof. unfold bind, emit. now destruct (k tt). Qed.

Lemma bind_pair_ok {A B} (l : list E) (a : A) (k : A -> M E B) :
  bind (l, Ok a) k = (l ++ fst (k a), snd (k a)).
Proof. unfold bind. now destruct (k a). Qed.

Lemma bind_ok_inv {A B} (m : M E A) (k : A -> M E B) (l : list E) (b : B) :
  bind m k = (l, Ok b) ->
  exists l1 a l2, m = (l1, Ok a) /\ k a = (l2, Ok b) /\ l = l1 ++ l2.
Proof.
  destruct m as [l1 [a | e]]; simpl; [| discriminate].
  destruct (k a) as [l2 r] eqn:Hk. intros H; injection H as <- ->.
  now exists l1, a, l2.
Qed.

Lemma bind_raise_inv {A B} (m : M E A) (k : A -> M E B) (l : list E) (e : exn) :
  bind m k = (l, Raise e) ->
  m = (l, Raise e) \/
  exists l1 a l2, m = (l1, Ok a) /\ k a = (l2, Raise e) /\ l = l1 ++ l2.
Proof.
  destruct m as [l1 [a | e']]; simpl.
  - destruct (k a) as [l2 r] eqn:Hk. intros H; injection H as <- ->.
    right. now exists l1, a, l2.
  - intros H; injection H as <- <-. now left.
Qed.

End Computations.

Ltac mstep :=
  repeat first
    [ rewrite bind_ret
    | rewrite bind_raise
    | rewrite bind_emit
    | rewrite bind_pair_ok ];
  cbv beta.

(** ** Dictionaries *)

Section Dictionaries.
Import Py Design.

Lemma dict_get_set_eq (k : string) (v : json) (d : list (string * json)) :
  dict_get k (dict_set k v d) = Some v.
Proof.
  induction d as [|[k' v'] d IH]; simpl.
  - now rewrite String.eqb_refl.
  - destruct (String.eqb k k') eqn:Hk; simpl; rewrite Hk; [reflexivity | exact IH].
Qed.

Lemma dict_get_set_ne (k k' : string) (v : json) (d : list (string * json)) :
  k <> k' -> dict_get k' (dict_set k v d) = dict_get k' d.
Proof.
  intros Hne. induction d as [|[k0 v0] d IH]; simpl.
  - destruct (String.eqb k' k) eqn:Hk; [| reflexivity].
    apply String.eqb_eq in Hk. congruence.
  - destruct (String.eqb k k0) eqn:Hk; simpl.
    + apply String.eqb_eq in Hk; subst k0.
      destruct (String.eqb k' k) eqn:Hk'; [| reflexivity].
      apply String.eqb_eq in Hk'. congruence.
    + now rewrite IH.
Qed.

(** Setting a key the dictionary already holds with that value changes
    nothing. *)
Lemma dict_set_same (k : string) (v : json) (d : list (string * json)) :
  dict_get k d = Some v -> dict_set k v d = d.
Proof.
  induction d as [|[k' v'] d IH]; simpl; [discriminate |].
  destruct (String.eqb k k') eqn:Hk.
  - intros H; injection H as ->. reflexivity.
  - intros H. now rewrite IH.
Qed.

Lemma filter_dict_set (keep : string -> bool) (k : string) (v : json)
  (d : list (string * json)) :
  keep k = false ->
  List.filter (fun kv => keep (fst kv)) (dict_set k v d)
  = List.filter (fun kv => keep (fst kv)) d.
Proof.
  intros Hk. induction d as [|[k' v'] d IH]; simpl.
  - now rewrite Hk.
  - destruct (String.eqb k k') eqn:Hkk; simpl.
    + apply String.eqb_eq in Hkk; subst k'. now rewrite Hk.
    + now rewrite IH.
Qed.

(** Overwriting [cardCount] and [size] leaves the other fields as they
    are, in their order. *)
Lemma other_fields_overwritten (new_count new_size : json) (d : list (string * json)) :
  other_fields (dict_set "size" new_size (dict_set "cardCount" new_count d))
  = other_fields d.
Proof.
  unfold other_fields.
  rewrite (filter_dict_set
             (fun k => negb (String.eqb k "cardCount") && negb (String.eqb k "size")))
    by reflexivity.
  now rewrite (filter_dict_set
             (fun k => negb (String.eqb k "cardCount") && negb (String.eqb k "size")))
    by reflexivity.
Qed.

Lemma get_default_stored {E} (fields : list (string * json)) (k : string) :
  get_default (E := E) (JObj fields) k (JInt 0) = ret (stored fields k).
Proof. unfold get_default, stored. now destruct (dict_get k fields). Qed.

Lemma true_div_mib_divisible {E} (v : json) :
  divisible v = true -> true_div_mib (E := E) v = ret tt.
Proof.
  destruct v; simpl; try discriminate; try reflexivity.
  now intros ->.
Qed.

Lemma true_div_mib_not_divisible {E} (v : json) :
  divisible v = false -> exists e, true_div_mib (E := E) v = raise e.
Proof.
  destruct v; simpl; try discriminate; eauto.
  intros ->. eauto.
Qed.

End Dictionaries.

(** ** The updater: one deck *)

Section UpdaterEntry.
Import Py Disk Design.
Variable count_map : gmap string (json * json).

Lemma update_deck_ok (deck : json) :
  entry_ok count_map deck = true ->
  exists log,
    Updater.update_deck count_map deck
    = (log, Ok (reconciled count_map deck, needs_update count_map deck))
    /\ existsb writes_catalog log = false
    /\ (needs_update count_map deck = false -> log = []).
Proof.
  destruct deck as [| | | | |items|fields]; try discriminate.
  unfold entry_ok, reconciled, overwritten, needs_update, looked_up.
  unfold Updater.update_deck, subscript.
  destruct (dict_get "downloadUrl" fields) as [[| | | |url| |]|] eqn:Hurl;
    try discriminate.
  mstep. rewrite derive_filename_key. mstep.
  destruct (count_map !! lookup_key url) as [[new_count new_size]|] eqn:Hcm.
  2:{ intros _. exists []. now mstep. }
  rewrite !get_default_stored. mstep.
  destruct (py_ne (stored fields "cardCount") new_count) eqn:Hc;
  destruct (py_ne (stored fields "size") new_size) eqn:Hs; simpl orb; cbv iota.
  - intros H. apply andb_prop in H as [Hn H]. apply andb_prop in H as [H1 H2].
    unfold has_key in Hn. destruct (dict_get "name" fields) as [name|]; [| discriminate].
    rewrite (true_div_mib_divisible _ H1), (true_div_mib_divisible _ H2).
    unfold store. mstep. simpl. eexists. split; [reflexivity |]. split; [reflexivity | discriminate].
  - intros H. apply andb_prop in H as [Hn _].
    unfold has_key in Hn. destruct (dict_get "name" fields) as [name|]; [| discriminate].
    unfold store. mstep. simpl. eexists. split; [reflexivity |]. split; [reflexivity | discriminate].
  - intros H. apply andb_prop in H as [Hn H]. apply andb_prop in H as [H1 H2].
    unfold has_key in Hn. destruct (dict_get "name" fields) as [name|]; [| discriminate].
    rewrite (true_div_mib_divisible _ H1), (true_div_mib_divisible _ H2).
    unfold store. mstep. simpl. eexists. split; [reflexivity |]. split; [reflexivity | discriminate].
  - intros _. exists []. now mstep.
Qed.

Lemma update_deck_raises (deck : json) :
  entry_ok count_map deck = false ->
  exists log e,
    Updater.update_deck count_map deck = (log, Raise e)
    /\ existsb writes_catalog log = false.
Proof.
  unfold entry_ok, needs_update, looked_up, Updater.update_deck, subscript.
  destruct deck as [| | | | |items|fields];
    try (intros _; do 2 eexists; split; reflexivity).
  destruct (dict_get "downloadUrl" fields) as [[| | | |url| |]|] eqn:Hurl;
    try (intros _; do 2 eexists; split; reflexivity).
  mstep. rewrite derive_filename_key. mstep.
  destruct (count_map !! lookup_key url) as [[new_count new_size]|] eqn:Hcm;
    [| discriminate].
  rewrite !get_default_stored. mstep.
  destruct (py_ne (stored fields "cardCount") new_count) eqn:Hc;
  destruct (py_ne (stored fields "size") new_size) eqn:Hs; simpl orb; cbv iota;
    try discriminate.
  all: unfold has_key; destruct (dict_get "name" fields) as [name|];
    [| intros _; do 2 eexists; split; reflexivity]; simpl andb.
  all: try discriminate.
  all: intros H; destruct (divisible (stored fields "size")) eqn:H1;
    [ rewrite (true_div_mib_divisible (E := Updater.event) _ H1);
      simpl in H;
      destruct (true_div_mib_not_divisible (E := Updater.event) _ H) as [e He];
      rewrite He
    | destruct (true_div_mib_not_divisible (E := Updater.event) _ H1) as [e He];
      rewrite He ];
    mstep; simpl; do 2 eexists; split; reflexivity.
Qed.

(** Whenever the body of the loop returns, it has taken the decision of
    the design and left the deck as the design says. *)
Lemma update_deck_returns (deck deck' : json) (changed : bool) (log : list Updater.event) :
  Updater.update_deck count_map deck = (log, Ok (deck', changed)) ->
  entry_ok count_map deck = true
  /\ deck' = reconciled count_map deck
  /\ changed = needs_update count_map deck
  /\ existsb writes_catalog log = false.
Proof.
  intros H. destruct (entry_ok count_map deck) eqn:Hok.
  - destruct (update_deck_ok deck Hok) as (log' & H' & Hw & _).
    rewrite H in H'. injection H' as -> -> ->. auto.
  - destruct (update_deck_raises deck Hok) as (log' & e & H' & _).
    rewrite H in H'. discriminate.
Qed.

(** Whatever the body of the loop does, it writes nothing. *)
Lemma update_deck_no_write (deck : json) (log : list Updater.event)
  (r : outcome (json * bool)) :
  Updater.update_deck count_map deck = (log, r) ->
  existsb writes_catalog log = false.
Proof.
  intros H. destruct (entry_ok count_map deck) eqn:Hok.
  - destruct (update_deck_ok deck Hok) as (log' & H' & Hw & _).
    rewrite H in H'. now injection H' as -> _.
  - destruct (update_deck_raises deck Hok) as (log' & e & H' & Hw).
    rewrite H in H'. now injection H' as -> _.
Qed.

End UpdaterEntry.

(** ** The updater: the loop and the run *)

Section UpdaterRun.
Import Py Disk Design.

Lemma existsb_writes_app (l1 l2 : list Updater.event) :
  existsb writes_catalog l1 = false ->
  existsb writes_catalog l2 = false ->
  existsb writes_catalog (l1 ++ l2) = false.
Proof. intros H1 H2. now rewrite existsb_app, H1, H2. Qed.

Lemma update_decks_no_write (count_map : gmap string (json * json))
  (decks : list json) (n : nat) (log : list Updater.event)
  (r : outcome (list json * nat)) :
  Updater.update_decks count_map decks n = (log, r) ->
  existsb writes_catalog log = false.
Proof.
  revert n log r; induction decks as [|deck rest IH]; intros n log r; simpl.
  - now intros [= <- _].
  - destruct (Updater.update_deck count_map deck) as [l1 [[deck' changed]|e]] eqn:Hd.
    + pose proof (update_deck_no_write _ _ _ _ Hd) as Hw1.
      rewrite bind_pair_ok.
      destruct (Updater.update_decks count_map rest (if changed then S n else n))
        as [l2 [[rest' n']|e]] eqn:Hr;
        pose proof (IH _ _ _ Hr) as Hw2;
        mstep; simpl; intros [= <- _]; rewrite ?app_nil_r;
        now apply existsb_writes_app.
    + simpl. intros [= <- _]. exact (update_deck_no_write _ _ _ _ Hd).
Qed.

(** When the loop returns, every deck was one it goes through on, every
    deck is left as the design says, and [updated] has grown by the number
    of decks that needed the update. *)
Lemma update_decks_returns (count_map : gmap string (json * json))
  (decks decks' : list json) (n n' : nat) (log : list Updater.event) :
  Updater.update_decks count_map decks n = (log, Ok (decks', n')) ->
  forallb (entry_ok count_map) decks = true
  /\ decks' = map (reconciled count_map) decks
  /\ n' = (n + length (List.filter (needs_update count_map) decks))%nat.
Proof.
  revert decks' n n' log; induction decks as [|deck rest IH];
    intros decks' n n' log; simpl.
  - intros [= _ <- <-]. repeat split. lia.
  - intros H. apply bind_ok_inv in H as (l1 & [deck' changed] & l2 & Hd & H & _).
    apply bind_ok_inv in H as (l3 & [rest' m] & l4 & Hr & H & _).
    injection H as _ <- <-.
    apply update_deck_returns in Hd as (Hok & -> & -> & _).
    apply IH in Hr as (Hoks & -> & ->).
    rewrite Hok, Hoks. repeat split.
    destruct (needs_update count_map deck); simpl; lia.
Qed.

Lemma update_decks_ok (count_map : gmap string (json * json))
  (decks : list json) (n : nat) :
  forallb (entry_ok count_map) decks = true ->
  exists log,
    Updater.update_decks count_map decks n
    = (log, Ok (map (reconciled count_map) decks,
                (n + length (List.filter (needs_update count_map) decks))%nat))
    /\ (List.filter (needs_update count_map) decks = [] -> log = []).
Proof.
  revert n; induction decks as [|deck rest IH]; intros n; simpl.
  - intros _. exists []. rewrite Nat.add_0_r. now split.
  - intros H. apply andb_prop in H as [Hok Hoks].
    destruct (update_deck_ok count_map deck Hok) as (l1 & Hd & _ & Hsilent).
    destruct (IH (if needs_update count_map deck then S n else n) Hoks)
      as (l2 & Hr & Hsilent').
    rewrite Hd, bind_pair_ok. cbv iota beta. rewrite Hr, bind_pair_ok. simpl.
    exists (l1 ++ l2 ++ []). split.
    + do 3 f_equal. destruct (needs_update count_map deck); simpl; lia.
    + destruct (needs_update count_map deck); [discriminate |].
      intros Hnil. now rewrite Hsilent, Hsilent'.
Qed.

Lemma no_write_bind {A B} (m : M Updater.event A) (k : A -> M Updater.event B) :
  existsb writes_catalog (fst m) = false ->
  (forall a, existsb writes_catalog (fst (k a)) = false) ->
  existsb writes_catalog (fst (bind m k)) = false.
Proof.
  intros Hm Hk. destruct m as [l [a|e]]; simpl in *; [| exact Hm].
  specialize (Hk a). destruct (k a) as [l' r]; simpl in *.
  now apply existsb_writes_app.
Qed.

Lemma silent_bind {E A B} (m : M E A) (k : A -> M E B) :
  fst m = [] -> (forall a, fst (k a) = []) -> fst (bind m k) = [].
Proof.
  intros Hm Hk. destruct m as [l [a|e]]; simpl in *; [| exact Hm].
  specialize (Hk a). destruct (k a) as [l' r]; simpl in *. now subst.
Qed.

Lemma load_silent {E} (c : content) : fst (load (E := E) c) = [].
Proof. now destruct c. Qed.

Lemma iterate_silent {E} (j : json) : fst (iterate (E := E) j) = [].
Proof. now destruct j. Qed.

Lemma subscript_silent {E} (j : json) (k : string) : fst (subscript (E := E) j k) = [].
Proof. destruct j; try reflexivity. simpl. now destruct (dict_get k fields). Qed.

Lemma count_entry_silent {E} (item : json) (m : gmap string (json * json)) :
  fst (Updater.count_entry (E := E) item m) = [].
Proof.
  unfold Updater.count_entry.
  apply silent_bind; [apply subscript_silent | intros file].
  apply silent_bind; [apply subscript_silent | intros count].
  apply silent_bind; [apply subscript_silent | intros size].
  now destruct file.
Qed.

Lemma build_count_map_silent {E} (items : list json) (m : gmap string (json * json)) :
  fst (Updater.build_count_map (E := E) items m) = [].
Proof.
  revert m; induction items as [|item rest IH]; intros m; simpl; [reflexivity |].
  apply silent_bind; [apply count_entry_silent | intros m'; apply IH].
Qed.

Lemma silent_no_write {A} (m : M Updater.event A) :
  fst m = [] -> existsb writes_catalog (fst m) = false.
Proof. now intros ->. Qed.

(** Reconciliation writes nothing, whether it returns or raises. *)
Lemma reconcile_no_write (counts catalog : content) :
  existsb writes_catalog (fst (Updater.reconcile counts catalog)) = false.
Proof.
  unfold Updater.reconcile.
  apply no_write_bind; [apply silent_no_write, load_silent | intros actual_counts].
  apply no_write_bind; [apply silent_no_write, iterate_silent | intros items].
  apply no_write_bind; [apply silent_no_write, build_count_map_silent | intros count_map].
  apply no_write_bind; [apply silent_no_write, load_silent | intros cat].
  apply no_write_bind; [apply silent_no_write, subscript_silent | intros decks_value].
  apply no_write_bind; [apply silent_no_write, iterate_silent | intros decks].
  apply no_write_bind.
  - destruct (Updater.update_decks count_map decks 0) as [l r] eqn:H.
    exact (update_decks_no_write _ _ _ _ _ H).
  - now intros [decks' updated].
Qed.

Lemma silent_ok_inv {E A} (m : M E A) (l : list E) (a : A) :
  fst m = [] -> m = (l, Ok a) -> m = ret a /\ l = [].
Proof. intros Hs ->. simpl in Hs. now subst. Qed.

(** What a reconciliation that returns has done. *)
Lemma reconcile_returns (counts catalog : content) (log : list Updater.event)
  (catalog' : json) (updated : nat) :
  Updater.reconcile counts catalog = (log, Ok (catalog', updated)) ->
  exists actual_counts items count_map top decks_value decks,
    counts = Doc actual_counts
    /\ iterate (E := Updater.event) actual_counts = ret items
    /\ Updater.build_count_map (E := Updater.event) items ∅ = ret count_map
    /\ catalog = Doc (JObj top)
    /\ dict_get "decks" top = Some decks_value
    /\ iterate (E := Updater.event) decks_value = ret decks
    /\ forallb (entry_ok count_map) decks = true
    /\ Updater.update_decks count_map decks 0
       = (log, Ok (map (reconciled count_map) decks, updated))
    /\ catalog' = Updater.with_decks (JObj top) decks_value
                    (map (reconciled count_map) decks)
    /\ updated = length (List.filter (needs_update count_map) decks).
Proof.
  unfold Updater.reconcile. intros H.
  apply bind_ok_inv in H as (l1 & actual_counts & l1' & H1 & H & ->).
  apply bind_ok_inv in H as (l2 & items & l2' & H2 & H & ->).
  apply bind_ok_inv in H as (l3 & count_map & l3' & H3 & H & ->).
  apply bind_ok_inv in H as (l4 & cat & l4' & H4 & H & ->).
  apply bind_ok_inv in H as (l5 & decks_value & l5' & H5 & H & ->).
  apply bind_ok_inv in H as (l6 & decks & l6' & H6 & H & ->).
  apply bind_ok_inv in H as (l7 & [decks' n] & l7' & H7 & H & ->).
  injection H as <- <- <-.
  apply silent_ok_inv in H1 as [H1 ->]; [| apply load_silent].
  apply silent_ok_inv in H2 as [H2 ->]; [| apply iterate_silent].
  apply silent_ok_inv in H3 as [H3 ->]; [| apply build_count_map_silent].
  apply silent_ok_inv in H4 as [H4 ->]; [| apply load_silent].
  apply silent_ok_inv in H5 as [H5 ->]; [| apply subscript_silent].
  apply silent_ok_inv in H6 as [H6 ->]; [| apply iterate_silent].
  destruct counts as [e|c]; [discriminate |]. injection H1 as ->.
  destruct catalog as [e|c]; [discriminate |]. injection H4 as ->.
  destruct cat as [| | | | | |top]; try discriminate.
  simpl in H5. destruct (dict_get "decks" top) as [v|] eqn:Hd; [| discriminate].
  injection H5 as ->.
  pose proof (update_decks_returns _ _ _ _ _ _ H7) as (Hok & -> & ->).
  exists actual_counts, items, count_map, top, decks_value, decks.
  simpl. rewrite app_nil_r in *. repeat split; auto.
Qed.

End UpdaterRun.

(** ** The updater: the count mapping and the files *)

Section UpdaterFiles.
Import Py Disk Design.

Lemma count_entry_lookup {E} (item : json) (m m' : gmap string (json * json))
  (l : list E) (k : string) :
  Updater.count_entry item m = (l, Ok m') ->
  is_Some (m' !! k) ->
  is_Some (m !! k) \/ record_file item = Some k.
Proof.
  unfold Updater.count_entry, record_file. intros H Hk.
  apply bind_ok_inv in H as (l1 & file & l1' & H1 & H & _).
  apply bind_ok_inv in H as (l2 & count & l2' & H2 & H & _).
  apply bind_ok_inv in H as (l3 & size & l3' & H3 & H & _).
  destruct item as [| | | | | |fields]; try discriminate.
  simpl in H1. destruct (dict_get "file" fields) as [v|]; [| discriminate].
  injection H1 as _ ->.
  destruct file; try discriminate; injection H as _ <-; auto.
  destruct (decide (s = k)) as [->|Hne]; [now right |].
  left. now rewrite lookup_insert_ne in Hk.
Qed.

(** A key of the count mapping is the file name of a record. *)
Lemma build_count_map_lookup {E} (items : list json) (m m' : gmap string (json * json))
  (l : list E) (k : string) :
  Updater.build_count_map items m = (l, Ok m') ->
  is_Some (m' !! k) ->
  is_Some (m !! k) \/ exists item, In item items /\ record_file item = Some k.
Proof.
  revert m l; induction items as [|item rest IH]; intros m l; simpl.
  - intros [= _ <-]. now left.
  - intros H Hk. apply bind_ok_inv in H as (l1 & m1 & l2 & H1 & H2 & _).
    destruct (IH _ _ H2 Hk) as [Hm1 | (it & Hin & Hit)].
    + destruct (count_entry_lookup _ _ _ _ _ H1 Hm1) as [Hm | Hf]; [now left |].
      right. exists item. auto.
    + right. exists it. auto.
Qed.

Lemma files_after_no_write (fs : Updater.files) (log : list Updater.event) :
  existsb writes_catalog log = false -> Updater.files_after fs log = fs.
Proof.
  unfold Updater.files_after. induction log as [|ev log IH]; simpl; [reflexivity |].
  destruct ev; simpl; [exact IH | discriminate].
Qed.

Lemma files_after_write (fs : Updater.files) (log tail : list Updater.event)
  (catalog : json) :
  existsb writes_catalog log = false ->
  existsb writes_catalog tail = false ->
  Updater.files_after fs (log ++ Updater.WriteCatalog catalog :: tail)
  = {| Updater.counts_file := Updater.counts_file fs;
       Updater.catalog_file := Some (Doc catalog) |}.
Proof.
  intros H1 H2. unfold Updater.files_after. rewrite fold_left_app; simpl.
  fold (Updater.files_after fs log). rewrite (files_after_no_write _ _ H1).
  now apply (files_after_no_write _ tail).
Qed.

Lemma execute_counts_missing (fs : Updater.files) :
  Updater.counts_file fs = None ->
  Updater.execute fs
  = {| Updater.trace := [Updater.Print Updater.CountsNotFound];
       Updater.status := Ok tt; Updater.disk := fs |}.
Proof. unfold Updater.execute, Updater.main. now intros ->. Qed.

Lemma execute_catalog_missing (fs : Updater.files) (counts : content) :
  Updater.counts_file fs = Some counts ->
  Updater.catalog_file fs = None ->
  Updater.execute fs
  = {| Updater.trace := [Updater.Print Updater.CatalogNotFound];
       Updater.status := Ok tt; Updater.disk := fs |}.
Proof. unfold Updater.execute, Updater.main. now intros -> ->. Qed.

Lemma execute_raises (fs : Updater.files) (counts catalog : content)
  (log : list Updater.event) (e : exn) :
  Updater.counts_file fs = Some counts ->
  Updater.catalog_file fs = Some catalog ->
  Updater.reconcile counts catalog = (log, Raise e) ->
  Updater.execute fs
  = {| Updater.trace := log; Updater.status := Raise e; Updater.disk := fs |}.
Proof.
  unfold Updater.execute, Updater.main. intros -> -> H.
  pose proof (reconcile_no_write counts catalog) as Hw.
  rewrite H in *; simpl in *. now rewrite files_after_no_write.
Qed.

Lemma execute_accurate (fs : Updater.files) (counts catalog : content)
  (log : list Updater.event) (catalog' : json) :
  Updater.counts_file fs = Some counts ->
  Updater.catalog_file fs = Some catalog ->
  Updater.reconcile counts catalog = (log, Ok (catalog', 0%nat)) ->
  Updater.execute fs
  = {| Updater.trace := [Updater.Print Updater.AlreadyAccurate];
       Updater.status := Ok tt; Updater.disk := fs |}.
Proof.
  unfold Updater.execute, Updater.main. intros -> -> H.
  destruct (reconcile_returns _ _ _ _ _ H)
    as (ac & items & cm & top & dv & decks & _ & _ & _ & _ & _ & _ & Hok & Hu & _ & Hn).
  destruct (update_decks_ok cm decks 0 Hok) as (log' & Hu' & Hsilent).
  rewrite Hu in Hu'. injection Hu' as <- _.
  symmetry in Hn. apply length_zero_iff_nil in Hn. rewrite (Hsilent Hn) in H.
  now rewrite H.
Qed.

Lemma execute_updated (fs : Updater.files) (counts catalog : content)
  (log : list Updater.event) (catalog' : json) (n : nat) :
  Updater.counts_file fs = Some counts ->
  Updater.catalog_file fs = Some catalog ->
  Updater.reconcile counts catalog = (log, Ok (catalog', S n)) ->
  Updater.execute fs
  = {| Updater.trace :=
         log ++ [Updater.WriteCatalog catalog';
                 Updater.Print (Updater.UpdatedDecks (S n))];
       Updater.status := Ok tt;
       Updater.disk := {| Updater.counts_file := Some counts;
                          Updater.catalog_file := Some (Doc catalog') |} |}.
Proof.
  unfold Updater.execute, Updater.main. intros Hc Hcat H. rewrite Hc, Hcat.
  pose proof (reconcile_no_write counts catalog) as Hw.
  rewrite H in *; simpl in *.
  rewrite files_after_write by auto. now rewrite Hc.
Qed.

End UpdaterFiles.

(** ** The updater: what a run changes *)

Section UpdaterFrame.
Import Py Disk Design.

(** What a loop runs over is the list itself, or strings only. *)
Lemma iterate_cases {E} (j : json) (l : list json) :
  iterate (E := E) j = ret l ->
  j = JArr l \/ Forall (fun x => exists s, x = JStr s) l.
Proof.
  destruct j; try discriminate; simpl; intros [= <-]; [right | now left | right].
  - induction (list_ascii_of_string s); simpl; constructor; eauto.
  - induction fields; simpl; constructor; eauto.
Qed.

Lemma entry_ok_strings (count_map : gmap string (json * json)) (l : list json) :
  Forall (fun x => exists s, x = JStr s) l ->
  forallb (entry_ok count_map) l = true -> l = [].
Proof.
  destruct 1 as [|x l [s ->] _]; [reflexivity |]. simpl. discriminate.
Qed.

Lemma build_count_map_strings {E} (l : list json) (m m' : gmap string (json * json))
  (log : list E) :
  Forall (fun x => exists s, x = JStr s) l ->
  Updater.build_count_map l m = (log, Ok m') -> l = [].
Proof.
  destruct 1 as [|x l [s ->] _]; [reflexivity |]. simpl. discriminate.
Qed.

Lemma needs_update_looked_up (count_map : gmap string (json * json)) (deck : json) :
  needs_update count_map deck = true ->
  exists fields url new_count new_size,
    deck = JObj fields
    /\ dict_get "downloadUrl" fields = Some (JStr url)
    /\ count_map !! lookup_key url = Some (new_count, new_size)
    /\ overwritten count_map deck
       = JObj (dict_set "size" new_size (dict_set "cardCount" new_count fields)).
Proof.
  unfold needs_update, overwritten, looked_up.
  destruct deck as [| | | | | |fields]; try discriminate.
  destruct (dict_get "downloadUrl" fields) as [[| | | |url| |]|] eqn:Hurl;
    try discriminate.
  destruct (count_map !! lookup_key url) as [[new_count new_size]|] eqn:Hcm;
    [| discriminate].
  intros _. now exists fields, url, new_count, new_size.
Qed.

(** A deck is left as it was, or it matches a record and only its
    [cardCount] and [size] have changed. *)
Lemma reconciled_frame (items : list json) (count_map : gmap string (json * json))
  (deck : json) :
  Updater.build_count_map (E := Updater.event) items ∅ = ret count_map ->
  entry_frame items deck (reconciled count_map deck).
Proof.
  intros Hmap. unfold reconciled.
  destruct (needs_update count_map deck) eqn:Hn; [| now left].
  apply needs_update_looked_up in Hn as (fields & url & nc & ns & -> & Hurl & Hcm & ->).
  right. split.
  - destruct (build_count_map_lookup items ∅ count_map [] (lookup_key url) Hmap)
      as [[v Hv] | (item & Hin & Hfile)].
    + now rewrite Hcm.
    + now rewrite lookup_empty in Hv.
    + now exists fields, url, item.
  - exists fields, (dict_set "size" ns (dict_set "cardCount" nc fields)).
    repeat split. apply other_fields_overwritten.
Qed.

(** A run that updates a deck has read a list of records and a list of
    decks. *)
Lemma reconcile_updated_lists (counts catalog : content) (log : list Updater.event)
  (catalog' : json) (n : nat) :
  Updater.reconcile counts catalog = (log, Ok (catalog', S n)) ->
  exists items count_map top decks,
    counts = Doc (JArr items)
    /\ Updater.build_count_map (E := Updater.event) items ∅ = ret count_map
    /\ catalog = Doc (JObj top)
    /\ dict_get "decks" top = Some (JArr decks)
    /\ forallb (entry_ok count_map) decks = true
    /\ catalog' = JObj (dict_set "decks" (JArr (map (reconciled count_map) decks)) top)
    /\ S n = length (List.filter (needs_update count_map) decks).
Proof.
  intros H. apply reconcile_returns in H
    as (ac & items & cm & top & dv & decks & -> & Hit & Hmap & -> & Hd & Hit'
        & Hok & _ & -> & Hn).
  destruct (iterate_cases _ _ Hit') as [-> | Hstr].
  2:{ rewrite (entry_ok_strings cm decks Hstr Hok) in Hn. discriminate. }
  destruct (iterate_cases _ _ Hit) as [-> | Hstr].
  - now exists items, cm, top, decks.
  - assert (items = []) as -> by (eapply build_count_map_strings; eauto).
    injection Hmap as <-. exfalso.
    assert (List.filter (needs_update ∅) decks = []) as Hnil.
    { clear. induction decks as [|d decks IH]; [reflexivity |]. simpl.
      destruct (needs_update ∅ d) eqn:Hd; [| exact IH].
      apply needs_update_looked_up in Hd as (? & ? & ? & ? & _ & _ & Hl & _).
      now rewrite lookup_empty in Hl. }
    rewrite Hnil in Hn. discriminate.
Qed.

(** The run of the updater, by cases on the files and on the
    reconciliation. *)
Lemma execute_cases (fs : Updater.files) :
  match Updater.counts_file fs, Updater.catalog_file fs with
  | None, _ =>
      Updater.execute fs
      = {| Updater.trace := [Updater.Print Updater.CountsNotFound];
           Updater.status := Ok tt; Updater.disk := fs |}
  | Some _, None =>
      Updater.execute fs
      = {| Updater.trace := [Updater.Print Updater.CatalogNotFound];
           Updater.status := Ok tt; Updater.disk := fs |}
  | Some counts, Some catalog =>
      match Updater.reconcile counts catalog with
      | (log, Raise e) =>
          Updater.execute fs
          = {| Updater.trace := log; Updater.status := Raise e; Updater.disk := fs |}
      | (log, Ok (catalog', O)) =>
          Updater.execute fs
          = {| Updater.trace := [Updater.Print Updater.AlreadyAccurate];
               Updater.status := Ok tt; Updater.disk := fs |}
      | (log, Ok (catalog', S n)) =>
          Updater.execute fs
          = {| Updater.trace :=
                 log ++ [Updater.WriteCatalog catalog';
                         Updater.Print (Updater.UpdatedDecks (S n))];
               Updater.status := Ok tt;
               Updater.disk := {| Updater.counts_file := Some counts;
                                  Updater.catalog_file := Some (Doc catalog') |} |}
      end
  end.
Proof.
  destruct (Updater.counts_file fs) as [counts|] eqn:Hc;
    [| now apply execute_counts_missing].
  destruct (Updater.catalog_file fs) as [catalog|] eqn:Hcat;
    [| now apply (execute_catalog_missing fs counts)].
  destruct (Updater.reconcile counts catalog) as [log [[catalog' [|n]]|e]] eqn:Hr.
  - now apply (execute_accurate fs counts catalog log catalog').
  - now apply (execute_updated fs counts catalog).
  - now apply (execute_raises fs counts catalog).
Qed.

End UpdaterFrame.

Section UpdaterClaims.
Import Py Disk Design.

(** C1.  A run of the updater leaves the results document alone, and the
    catalog on disk is afterwards either what it was, or the same
    dictionary whose [decks] list holds, in the same order and number, decks
    that are each either identical to the deck before or a deck that matches
    a record of the results document and differs from the deck before in
    [cardCount] and [size] only: its other fields are the same values in the
    same order.  A deck that matches no record is identical. *)
Theorem updater_preserves_other_fields (fs : Updater.files) :
  Updater.counts_file (Updater.disk (Updater.execute fs)) = Updater.counts_file fs
  /\ (Updater.catalog_file (Updater.disk (Updater.execute fs)) = Updater.catalog_file fs
      \/ exists items top decks decks',
           Updater.counts_file fs = Some (Doc (JArr items))
           /\ Updater.catalog_file fs = Some (Doc (JObj top))
           /\ dict_get "decks" top = Some (JArr decks)
           /\ Updater.catalog_file (Updater.disk (Updater.execute fs))
              = Some (Doc (JObj (dict_set "decks" (JArr decks') top)))
           /\ Forall2 (entry_frame items) decks decks').
Proof.
  pose proof (execute_cases fs) as H.
  destruct (Updater.counts_file fs) as [counts|] eqn:Hc;
    [| rewrite H; simpl; auto].
  destruct (Updater.catalog_file fs) as [catalog|] eqn:Hcat;
    [| rewrite H; simpl; auto].
  destruct (Updater.reconcile counts catalog) as [log [[catalog' [|n]]|e]] eqn:Hr;
    rewrite H; simpl; auto.
  split; [reflexivity |]. right.
  apply reconcile_updated_lists in Hr
    as (items & cm & top & decks & -> & Hmap & -> & Hd & _ & -> & _).
  exists items, top, decks, (map (reconciled cm) decks).
  repeat split; auto.
  clear Hd H. induction decks as [|d decks IH]; simpl; constructor; auto.
  now apply reconciled_frame.
Qed.

(** C6.  When the results document is missing the updater says so and
    returns with the files as they were, and so it does when the catalog is
    missing.  In every run the trace either holds no write, and the files
    are as they were, or it is the complete log of a reconciliation that
    returned, holding no write, followed by one write of the catalog that
    reconciliation produced and by the report: the catalog on disk is then
    that whole document. *)
Theorem updater_writes_whole_catalog_or_nothing (fs : Updater.files) :
  match Updater.counts_file fs, Updater.catalog_file fs with
  | None, _ =>
      Updater.execute fs
      = {| Updater.trace := [Updater.Print Updater.CountsNotFound];
           Updater.status := Ok tt; Updater.disk := fs |}
  | Some _, None =>
      Updater.execute fs
      = {| Updater.trace := [Updater.Print Updater.CatalogNotFound];
           Updater.status := Ok tt; Updater.disk := fs |}
  | Some _, Some _ => True
  end
  /\ ((existsb writes_catalog (Updater.trace (Updater.execute fs)) = false
       /\ Updater.disk (Updater.execute fs) = fs)
      \/ exists counts catalog log catalog' updated,
           Updater.counts_file fs = Some counts
           /\ Updater.catalog_file fs = Some catalog
           /\ Updater.reconcile counts catalog = (log, Ok (catalog', updated))
           /\ existsb writes_catalog log = false
           /\ Updater.trace (Updater.execute fs)
              = log ++ [Updater.WriteCatalog catalog';
                        Updater.Print (Updater.UpdatedDecks updated)]
           /\ Updater.disk (Updater.execute fs)
              = {| Updater.counts_file := Some counts;
                   Updater.catalog_file := Some (Doc catalog') |}).
Proof.
  pose proof (execute_cases fs) as H.
  destruct (Updater.counts_file fs) as [counts|] eqn:Hc;
    [| split; [exact H | rewrite H; simpl; auto]].
  destruct (Updater.catalog_file fs) as [catalog|] eqn:Hcat;
    [| split; [exact H | rewrite H; simpl; auto]].
  split; [exact I |].
  pose proof (reconcile_no_write counts catalog) as Hw.
  destruct (Updater.reconcile counts catalog) as [log [[catalog' [|n]]|e]] eqn:Hr;
    rewrite H; simpl in *; auto.
  right. exists counts, catalog, log, catalog', (S n). auto 10.
Qed.

End UpdaterClaims.

Section UpdaterDecision.
Import Py Disk Design.
Open Scope string_scope.

Lemma reconciled_unchanged (count_map : gmap string (json * json)) (decks : list json) :
  List.filter (needs_update count_map) decks = [] ->
  map (reconciled count_map) decks = decks.
Proof.
  induction decks as [|d decks IH]; simpl; [reflexivity |].
  unfold reconciled at 1. destruct (needs_update count_map d); [discriminate |].
  intros H. now rewrite IH.
Qed.

Lemma reconcile_ok (items : list json) (count_map : gmap string (json * json))
  (top : list (string * json)) (decks : list json) :
  Updater.build_count_map (E := Updater.event) items ∅ = ret count_map ->
  dict_get "decks" top = Some (JArr decks) ->
  forallb (entry_ok count_map) decks = true ->
  exists log,
    Updater.reconcile (Doc (JArr items)) (Doc (JObj top))
    = (log, Ok (JObj (dict_set "decks" (JArr (map (reconciled count_map) decks)) top),
                length (List.filter (needs_update count_map) decks))).
Proof.
  intros Hmap Hd Hok.
  destruct (update_decks_ok count_map decks 0 Hok) as (log & Hu & _).
  exists log. unfold Updater.reconcile, load, iterate, subscript.
  mstep. rewrite Hmap. mstep. rewrite Hd. mstep. rewrite Hu.
  now rewrite bind_pair_ok, app_nil_r.
Qed.

Lemma french_key (prefix : string) :
  lookup_key (prefix ++ "/French.apkg?token=x") = "French.apkg".
Proof. now rewrite lookup_key_after_slash. Qed.

End UpdaterDecision.

Section UpdaterDecisionClaims.
Import Py Disk Design.
Open Scope string_scope.

(** C5.  The file name the updater derives from a download URL is the
    lookup key of the design: the segment after the final [/], without what
    follows its first [?], percent-decoded, and of that the segment after
    the final [/].  A URL that ends in [/My%20Deck.apkg?alt=media] and one
    that ends in [/My Deck.apkg] both give [My Deck.apkg]. *)
Theorem derive_filename_is_lookup_key (E : Type) (url prefix : string) :
  Updater.derive_filename (E := E) (JStr url)
  = ret (final_segment (unquote (strip_query (final_segment url))))
  /\ Updater.derive_filename (E := E) (JStr (prefix ++ "/My%20Deck.apkg?alt=media"))
     = ret "My Deck.apkg"
  /\ Updater.derive_filename (E := E) (JStr (prefix ++ "/My Deck.apkg"))
     = ret "My Deck.apkg".
Proof.
  rewrite !derive_filename_key, !lookup_key_after_slash. repeat split.
Qed.

(** C2.  When the results document gives the count mapping, the catalog
    holds a list of decks and the loop raises on none of them, the run
    returns; the catalog on disk then holds, deck for deck, the deck with
    [cardCount] and [size] overwritten by the looked-up values where the
    lookup key is in the mapping and the stored count or the stored size
    differs from the looked-up one ([needs_update]), and the deck as it was
    everywhere else; the number the run reports is the number of the decks
    that needed the update.  In the scenario of the design document the
    deck ends with [cardCount] 1200 and [size] 5242880 and the run reports
    one updated deck. *)
Theorem updater_overwrites_exactly_stale_decks :
  (forall (fs : Updater.files) (items : list json)
          (count_map : gmap string (json * json))
          (top : list (string * json)) (decks : list json),
      Updater.counts_file fs = Some (Doc (JArr items)) ->
      Updater.build_count_map (E := Updater.event) items ∅ = ret count_map ->
      Updater.catalog_file fs = Some (Doc (JObj top)) ->
      dict_get "decks" top = Some (JArr decks) ->
      forallb (entry_ok count_map) decks = true ->
      let after := Updater.execute fs in
      let updated := length (List.filter (needs_update count_map) decks) in
      Updater.status after = Ok tt
      /\ Updater.catalog_file (Updater.disk after)
         = Some (Doc (JObj (dict_set "decks"
             (JArr (map (fun deck =>
                           if needs_update count_map deck
                           then overwritten count_map deck
                           else deck) decks)) top)))
      /\ last (Updater.trace after)
         = Some (Updater.Print
                   (if (0 <? updated)%nat
                    then Updater.UpdatedDecks updated
                    else Updater.AlreadyAccurate)))
  /\ (forall prefix : string,
        let after := Updater.execute (french_files prefix) in
        Updater.status after = Ok tt
        /\ Updater.catalog_file (Updater.disk after)
           = Some (Doc (french_catalog prefix (JInt 1200) (JInt 5242880)))
        /\ last (Updater.trace after)
           = Some (Updater.Print (Updater.UpdatedDecks 1))).
Proof.
  assert (forall (fs : Updater.files) (items : list json)
          (count_map : gmap string (json * json))
          (top : list (string * json)) (decks : list json),
      Updater.counts_file fs = Some (Doc (JArr items)) ->
      Updater.build_count_map (E := Updater.event) items ∅ = ret count_map ->
      Updater.catalog_file fs = Some (Doc (JObj top)) ->
      dict_get "decks" top = Some (JArr decks) ->
      forallb (entry_ok count_map) decks = true ->
      let after := Updater.execute fs in
      let updated := length (List.filter (needs_update count_map) decks) in
      Updater.status after = Ok tt
      /\ Updater.catalog_file (Updater.disk after)
         = Some (Doc (JObj (dict_set "decks"
             (JArr (map (reconciled count_map) decks)) top)))
      /\ last (Updater.trace after)
         = Some (Updater.Print
                   (if (0 <? updated)%nat
                    then Updater.UpdatedDecks updated
                    else Updater.AlreadyAccurate))) as General.
  { intros fs items cm top decks Hc Hmap Hcat Hd Hok after updated.
    destruct (reconcile_ok items cm top decks Hmap Hd Hok) as (log & Hr).
    pose proof (execute_cases fs) as H. rewrite Hc, Hcat, Hr in H.
    subst after. fold updated in H. destruct updated as [|n] eqn:Hn.
    - rewrite H; simpl. repeat split.
      apply length_zero_iff_nil in Hn. rewrite (reconciled_unchanged _ _ Hn).
      now rewrite dict_set_same.
    - rewrite H; simpl. repeat split.
      now rewrite last_app. }
  split; [exact General |].
  intros prefix.
  set (cm := <["French.apkg" := (JInt 1200, JInt 5242880)]> ∅ : gmap string (json * json)).
  set (deck := french_deck prefix (JInt 1000) (JInt 4000000)).
  assert (needs_update cm deck = true) as Hneed.
  { unfold needs_update, looked_up, deck, french_deck.
    simpl (dict_get _ _). cbv beta iota. now rewrite french_key. }
  assert (overwritten cm deck = french_deck prefix (JInt 1200) (JInt 5242880)) as Hover.
  { unfold overwritten, looked_up, deck, french_deck.
    simpl (dict_get _ _). cbv beta iota. now rewrite french_key. }
  assert (entry_ok cm deck = true) as Hok.
  { unfold entry_ok. rewrite Hneed. unfold deck, french_deck.
    simpl (dict_get _ _). cbv beta iota. now rewrite french_key. }
  destruct (General (french_files prefix) _ cm _ [deck]
              eq_refl eq_refl eq_refl eq_refl) as (Hs & Hc & Hl).
  { unfold forallb. now rewrite Hok. }
  cbn [map List.filter] in Hc, Hl. unfold reconciled in Hc.
  rewrite Hneed in Hc, Hl. rewrite Hover in Hc.
  repeat split; assumption.
Qed.

Lemma updater_overwrites_exactly_stale_decks_witness :
  let fs := french_files "https://cdn.example/decks" in
  let items := [JObj [("folder", JStr "Languages"); ("file", JStr "French.apkg");
                      ("path", JStr "Languages/French.apkg");
                      ("count", JInt 1200); ("size", JInt 5242880)]] in
  let count_map : gmap string (json * json) :=
    <["French.apkg" := (JInt 1200, JInt 5242880)]> ∅ in
  let decks := [french_deck "https://cdn.example/decks" (JInt 1000) (JInt 4000000)] in
  let top := [("version", JInt 2); ("decks", JArr decks)] in
  (Updater.counts_file fs = Some (Doc (JArr items))
   /\ Updater.build_count_map (E := Updater.event) items ∅ = ret count_map
   /\ Updater.catalog_file fs = Some (Doc (JObj top))
   /\ dict_get "decks" top = Some (JArr decks)
   /\ forallb (entry_ok count_map) decks = true)
  /\ Updater.status (Updater.execute fs) = Ok tt
  /\ Updater.catalog_file (Updater.disk (Updater.execute fs))
     = Some (Doc (JObj (dict_set "decks"
         (JArr (map (fun deck =>
                       if needs_update count_map deck
                       then overwritten count_map deck
                       else deck) decks)) top)))
  /\ last (Updater.trace (Updater.execute fs))
     = Some (Updater.Print
               (if (0 <? length (List.filter (needs_update count_map) decks))%nat
                then Updater.UpdatedDecks
                       (length (List.filter (needs_update count_map) decks))
                else Updater.AlreadyAccurate)).
Proof.
  intros fs items count_map decks top.
  split.
  - repeat split; vm_compute; reflexivity.
  - apply (proj1 updater_overwrites_exactly_stale_decks fs items count_map top decks);
      vm_compute; reflexivity.
Defined.

(** C10.  For a deck whose lookup key is in the mapping and which has no
    [cardCount] or no [size], and which otherwise has a [name], a size (if
    any) that can be divided and a looked-up size that can be divided: the
    body of the loop returns; it decides by comparing the looked-up values
    with the stored ones, 0 standing for a missing one; where they differ,
    the deck afterwards has both keys with the looked-up values and its
    other fields as they were; where they do not, the deck is as it was. *)
Theorem updater_defaults_missing_counts
  (count_map : gmap string (json * json)) (fields : list (string * json))
  (url : string) (new_count new_size : json) :
  dict_get "downloadUrl" fields = Some (JStr url) ->
  count_map !! lookup_key url = Some (new_count, new_size) ->
  dict_get "cardCount" fields = None \/ dict_get "size" fields = None ->
  has_key "name" fields = true ->
  (forall v, dict_get "size" fields = Some v -> divisible v = true) ->
  divisible new_size = true ->
  let old_count :=
    match dict_get "cardCount" fields with Some v => v | None => JInt 0 end in
  let old_size :=
    match dict_get "size" fields with Some v => v | None => JInt 0 end in
  let differs := py_ne old_count new_count || py_ne old_size new_size in
  exists log deck',
    Updater.update_deck count_map (JObj fields) = (log, Ok (deck', differs))
    /\ (differs = false -> deck' = JObj fields)
    /\ (differs = true ->
        exists fields',
          deck' = JObj fields'
          /\ dict_get "cardCount" fields' = Some new_count
          /\ dict_get "size" fields' = Some new_size
          /\ other_fields fields' = other_fields fields).
Proof.
  intros Hurl Hcm _ Hname Hsize Hnew old_count old_size differs.
  assert (needs_update count_map (JObj fields) = differs) as Hneeds.
  { unfold needs_update, looked_up. now rewrite Hurl, Hcm. }
  assert (divisible old_size = true) as Hold.
  { subst old_size. destruct (dict_get "size" fields) as [v|]; [now apply Hsize |].
    reflexivity. }
  assert (entry_ok count_map (JObj fields) = true) as Hok.
  { unfold entry_ok. rewrite Hneeds, Hurl, Hcm, Hname.
    fold (stored fields "size"). unfold stored. fold old_size.
    rewrite Hold, Hnew. now destruct differs, (py_ne old_size new_size). }
  destruct (update_deck_ok count_map (JObj fields) Hok) as (log & Hrun & _).
  rewrite Hneeds in Hrun. exists log, (reconciled count_map (JObj fields)).
  split; [exact Hrun |]. unfold reconciled. rewrite Hneeds.
  split; intros ->; [reflexivity |].
  unfold overwritten, looked_up. rewrite Hurl, Hcm.
  eexists. split; [reflexivity |]. repeat split.
  - rewrite dict_get_set_ne by discriminate. apply dict_get_set_eq.
  - apply dict_get_set_eq.
  - apply other_fields_overwritten.
Qed.

Lemma updater_defaults_missing_counts_witness :
  let count_map : gmap string (json * json) :=
    <["French.apkg" := (JInt 1200, JInt 5242880)]> ∅ in
  let url := "https://cdn.example/decks/French.apkg?token=x" in
  let fields := [("name", JStr "French"); ("downloadUrl", JStr url);
                 ("size", JInt 5242880)] in
  (dict_get "downloadUrl" fields = Some (JStr url)
   /\ count_map !! lookup_key url = Some (JInt 1200, JInt 5242880)
   /\ (dict_get "cardCount" fields = None \/ dict_get "size" fields = None)
   /\ has_key "name" fields = true
   /\ (forall v, dict_get "size" fields = Some v -> divisible v = true)
   /\ divisible (JInt 5242880) = true)
  /\ exists log deck',
      Updater.update_deck count_map (JObj fields) = (log, Ok (deck', true))
      /\ (true = false -> deck' = JObj fields)
      /\ (true = true ->
          exists fields',
            deck' = JObj fields'
            /\ dict_get "cardCount" fields' = Some (JInt 1200)
            /\ dict_get "size" fields' = Some (JInt 5242880)
            /\ other_fields fields' = other_fields fields).
Proof.
  intros count_map url fields.
  assert (forall v, dict_get "size" fields = Some v -> divisible v = true) as Hsize.
  { intros v [= <-]. vm_compute. reflexivity. }
  assert (count_map !! lookup_key url = Some (JInt 1200, JInt 5242880)) as Hkey
    by (vm_compute; reflexivity).
  assert (divisible (JInt 5242880) = true) as Hnew by (vm_compute; reflexivity).
  assert (has_key "name" fields = true) as Hname by (vm_compute; reflexivity).
  split.
  - split; [reflexivity |]. split; [exact Hkey |]. split; [left; reflexivity |].
    split; [exact Hname |]. split; [exact Hsize | exact Hnew].
  - exact (updater_defaults_missing_counts count_map fields url
             (JInt 1200) (JInt 5242880) eq_refl Hkey (or_introl eq_refl)
             Hname Hsize Hnew).
Defined.

End UpdaterDecisionClaims.

(** ** The updater: a second run *)

Section JsonInduction.
Import Py.
Variable P : json -> Prop.
Hypothesis HNull : P JNull.
Hypothesis HBool : forall b, P (JBool b).
Hypothesis HInt : forall n, P (JInt n).
Hypothesis HFloat : forall f, P (JFloat f).
Hypothesis HStr : forall s, P (JStr s).
Hypothesis HArr : forall items, Forall P items -> P (JArr items).
Hypothesis HObj : forall fields, Forall (fun kv => P (snd kv)) fields -> P (JObj fields).

(** Induction on a document, with the hypothesis for every item of a list
    and every value of a dictionary. *)
Lemma json_nested_ind (j : json) : P j.
Proof.
  revert j.
  exact (fix rec (j : json) : P j :=
    match j with
    | JNull => HNull
    | JBool b => HBool b
    | JInt n => HInt n
    | JFloat f => HFloat f
    | JStr s => HStr s
    | JArr items =>
        HArr items
          ((fix all (l : list json) : Forall P l :=
              match l with
              | [] => @List.Forall_nil _ P
              | x :: r => @List.Forall_cons _ P x r (rec x) (all r)
              end) items)
    | JObj fields =>
        HObj fields
          ((fix all (l : list (string * json)) : Forall (fun kv => P (snd kv)) l :=
              match l with
              | [] => @List.Forall_nil _ _
              | kv :: r => @List.Forall_cons _ _ kv r (rec (snd kv)) (all r)
              end) fields)
    end).
Qed.

End JsonInduction.

Section SecondRun.
Import Py Disk Design.

Lemma number_eqb_refl (x : number) : x <> NNan -> number_eqb x x = true.
Proof.
  destruct x as [| s | m e]; simpl; intros Hx.
  - congruence.
  - now destruct s.
  - apply Z.eqb_refl.
Qed.

Lemma dict_get_distinct (d : list (string * json)) (k : string) (v : json) :
  distinct_keys d = true -> In (k, v) d -> dict_get k d = Some v.
Proof.
  induction d as [|[k' v'] d IH]; simpl; [tauto |].
  intros H [Heq | Hin].
  - injection Heq as -> ->. now rewrite String.eqb_refl.
  - apply andb_prop in H as [Hk Hd].
    destruct (String.eqb k k') eqn:Hkk; [| now apply IH].
    apply String.eqb_eq in Hkk; subst k'.
    unfold has_key in Hk. rewrite (IH Hd Hin) in Hk. discriminate.
Qed.

(** A value other than [nan] compares equal to itself. *)
Lemma py_eq_refl (j : json) :
  is_nan j = false -> unique_keys j = true -> py_eq j j = true.
Proof.
  induction j as [| b | n | f | s | items IH | fields IH] using json_nested_ind;
    intros Hnan Hu; try reflexivity.
  - simpl. now destruct b.
  - simpl. apply Z.eqb_refl.
  - destruct f as [| s | s m e]; simpl;
      [discriminate | now destruct s | apply Z.eqb_refl].
  - simpl. apply String.eqb_refl.
  - clear Hnan. simpl in *. induction IH as [|x r Hx _ IHr]; [reflexivity |].
    apply andb_prop in Hu as [Hux Hur]. rewrite (IHr Hur), andb_true_r.
    destruct (is_nan x) eqn:Hn; [reflexivity | now apply Hx].
  - clear Hnan. simpl in Hu. apply andb_prop in Hu as [Hd Hall].
    simpl. rewrite Nat.eqb_refl. simpl.
    match goal with
    | |- ?F fields = true =>
        assert (forall r, incl r fields ->
                          Forall (fun kv => is_nan (snd kv) = false
                                            -> unique_keys (snd kv) = true
                                            -> py_eq (snd kv) (snd kv) = true) r ->
                          (fix all (l : list (string * json)) : bool :=
                             match l with
                             | [] => true
                             | (_, v) :: r => unique_keys v && all r
                             end) r = true ->
                          F r = true) as Haux
    end.
    { induction r as [|[k v] r IHr]; intros Hincl HP Hur; [reflexivity |].
      apply andb_prop in Hur as [Huv Hur].
      inversion HP as [|? ? Hv HP']; subst.
      rewrite (dict_get_distinct fields k v Hd) by (apply Hincl; now left).
      simpl in Hv. rewrite IHr; auto.
      - rewrite andb_true_r. destruct (is_nan v) eqn:Hn; [reflexivity | now apply Hv].
      - intros x Hx. apply Hincl. now right. }
    apply Haux; auto. apply incl_refl.
Qed.

Lemma unique_keys_items (items : list json) :
  unique_keys (JArr items) = true -> Forall (fun x => unique_keys x = true) items.
Proof.
  simpl. induction items as [|x r IH]; intros H; constructor;
    apply andb_prop in H as [Hx Hr]; auto.
Qed.

Lemma unique_keys_field (fields : list (string * json)) (k : string) (v : json) :
  unique_keys (JObj fields) = true -> dict_get k fields = Some v ->
  unique_keys v = true.
Proof.
  simpl. intros H. apply andb_prop in H as [_ H].
  induction fields as [|[k' v'] r IH]; simpl; [discriminate |].
  apply andb_prop in H as [Hv Hr].
  destruct (String.eqb k k'); [now intros [= <-] | now apply IH].
Qed.

Lemma iterate_unique_keys {E} (j : json) (l : list json) :
  unique_keys j = true -> iterate (E := E) j = ret l ->
  Forall (fun x => unique_keys x = true) l.
Proof.
  intros Hu Hit. destruct (iterate_cases _ _ Hit) as [-> | Hstr].
  - now apply unique_keys_items.
  - eapply Forall_impl; [exact Hstr |]. now intros x [s ->].
Qed.

(** The looked-up values of a mapping built from a document without
    repeated keys have none either. *)
Lemma count_entry_unique {E} (item : json) (m m' : gmap string (json * json))
  (l : list E) :
  unique_keys item = true ->
  (forall k c s, m !! k = Some (c, s) -> unique_keys c = true /\ unique_keys s = true) ->
  Updater.count_entry item m = (l, Ok m') ->
  forall k c s, m' !! k = Some (c, s) -> unique_keys c = true /\ unique_keys s = true.
Proof.
  unfold Updater.count_entry. intros Hu Hm H.
  apply bind_ok_inv in H as (l1 & file & l1' & H1 & H & _).
  apply bind_ok_inv in H as (l2 & count & l2' & H2 & H & _).
  apply bind_ok_inv in H as (l3 & size & l3' & H3 & H & _).
  destruct item as [| | | | | |fields]; try discriminate.
  simpl in H2, H3.
  destruct (dict_get "count" fields) as [vc|] eqn:Hc; [| discriminate].
  destruct (dict_get "size" fields) as [vs|] eqn:Hs; [| discriminate].
  injection H2 as _ ->. injection H3 as _ ->.
  pose proof (unique_keys_field _ _ _ Hu Hc) as Hcu.
  pose proof (unique_keys_field _ _ _ Hu Hs) as Hsu.
  destruct file; try discriminate; injection H as _ <-; auto.
  intros k c s'. destruct (decide (s = k)) as [->|Hne].
  - rewrite lookup_insert_eq. now intros [= <- <-].
  - rewrite lookup_insert_ne by auto. apply Hm.
Qed.

Lemma build_count_map_unique {E} (items : list json) (m m' : gmap string (json * json))
  (l : list E) :
  Forall (fun x => unique_keys x = true) items ->
  (forall k c s, m !! k = Some (c, s) -> unique_keys c = true /\ unique_keys s = true) ->
  Updater.build_count_map items m = (l, Ok m') ->
  forall k c s, m' !! k = Some (c, s) -> unique_keys c = true /\ unique_keys s = true.
Proof.
  intros Hitems; revert m l; induction Hitems as [|item rest Hu _ IH];
    intros m l Hm; simpl.
  - now intros [= _ <-].
  - intros H. apply bind_ok_inv in H as (l1 & m1 & l2 & H1 & H2 & _).
    eapply IH; [| exact H2]. eapply count_entry_unique; eauto.
Qed.

(** The looked-up values of a mapping built from records without [nan]
    are not [nan]. *)
Lemma count_entry_without_nan {E} (item : json) (m m' : gmap string (json * json))
  (l : list E) :
  record_without_nan item = true ->
  (forall k c s, m !! k = Some (c, s) -> is_nan c = false /\ is_nan s = false) ->
  Updater.count_entry item m = (l, Ok m') ->
  forall k c s, m' !! k = Some (c, s) -> is_nan c = false /\ is_nan s = false.
Proof.
  unfold Updater.count_entry. intros Hn Hm H.
  apply bind_ok_inv in H as (l1 & file & l1' & H1 & H & _).
  apply bind_ok_inv in H as (l2 & count & l2' & H2 & H & _).
  apply bind_ok_inv in H as (l3 & size & l3' & H3 & H & _).
  destruct item as [| | | | | |fields]; try discriminate.
  simpl in H2, H3, Hn.
  destruct (dict_get "count" fields) as [vc|] eqn:Hc; [| discriminate].
  destruct (dict_get "size" fields) as [vs|] eqn:Hs; [| discriminate].
  injection H2 as _ ->. injection H3 as _ ->.
  apply andb_prop in Hn as [Hnc Hns].
  apply negb_true_iff in Hnc. apply negb_true_iff in Hns.
  destruct file; try discriminate; injection H as _ <-; auto.
  intros k c s'. destruct (decide (s = k)) as [->|Hne].
  - rewrite lookup_insert_eq. now intros [= <- <-].
  - rewrite lookup_insert_ne by auto. apply Hm.
Qed.

Lemma build_count_map_without_nan {E} (items : list json)
  (m m' : gmap string (json * json)) (l : list E) :
  forallb record_without_nan items = true ->
  (forall k c s, m !! k = Some (c, s) -> is_nan c = false /\ is_nan s = false) ->
  Updater.build_count_map items m = (l, Ok m') ->
  forall k c s, m' !! k = Some (c, s) -> is_nan c = false /\ is_nan s = false.
Proof.
  revert m l; induction items as [|item rest IH]; intros m l Hitems Hm; simpl.
  - now intros [= _ <-].
  - apply andb_prop in Hitems as [Hitem Hrest].
    intros H. apply bind_ok_inv in H as (l1 & m1 & l2 & H1 & H2 & _).
    eapply IH; [exact Hrest | | exact H2]. eapply count_entry_without_nan; eauto.
Qed.

Section Reconciled.
Variable count_map : gmap string (json * json).
Hypothesis values_unique :
  forall k c s, count_map !! k = Some (c, s) ->
                unique_keys c = true /\ unique_keys s = true.
Hypothesis values_without_nan :
  forall k c s, count_map !! k = Some (c, s) ->
                is_nan c = false /\ is_nan s = false.

(** A deck the run has dealt with needs no update. *)
Lemma needs_update_reconciled (deck : json) :
  needs_update count_map (reconciled count_map deck) = false.
Proof.
  unfold reconciled. destruct (needs_update count_map deck) eqn:Hn; [| exact Hn].
  apply needs_update_looked_up in Hn as (fields & url & nc & ns & -> & Hurl & Hcm & ->).
  unfold needs_update, looked_up, stored.
  rewrite (dict_get_set_ne "size" "downloadUrl") by discriminate.
  rewrite (dict_get_set_ne "cardCount" "downloadUrl") by discriminate.
  rewrite Hurl, Hcm.
  rewrite (dict_get_set_ne "size" "cardCount") by discriminate.
  rewrite !dict_get_set_eq.
  destruct (values_unique _ _ _ Hcm) as [Hc Hs].
  destruct (values_without_nan _ _ _ Hcm) as [Hnc Hns].
  unfold py_ne. now rewrite (py_eq_refl _ Hnc Hc), (py_eq_refl _ Hns Hs).
Qed.

Lemma entry_ok_reconciled (deck : json) :
  entry_ok count_map deck = true ->
  entry_ok count_map (reconciled count_map deck) = true.
Proof.
  intros Hok. pose proof (needs_update_reconciled deck) as Hn.
  unfold reconciled in *. destruct (needs_update count_map deck) eqn:Hneed;
    [| exact Hok].
  apply needs_update_looked_up in Hneed
    as (fields & url & nc & ns & -> & Hurl & Hcm & Hover).
  rewrite Hover in *. unfold entry_ok. rewrite Hn.
  rewrite (dict_get_set_ne "size" "downloadUrl") by discriminate.
  rewrite (dict_get_set_ne "cardCount" "downloadUrl") by discriminate.
  now rewrite Hurl, Hcm.
Qed.

Lemma reconciled_twice (decks : list json) :
  forallb (entry_ok count_map) decks = true ->
  forallb (entry_ok count_map) (map (reconciled count_map) decks) = true
  /\ List.filter (needs_update count_map) (map (reconciled count_map) decks) = [].
Proof.
  induction decks as [|d decks IH]; simpl; [auto |].
  intros H. apply andb_prop in H as [Hd Hds].
  destruct (IH Hds) as [IH1 IH2].
  now rewrite entry_ok_reconciled, needs_update_reconciled, IH1, IH2.
Qed.

End Reconciled.

Lemma reconcile_zero_silent (counts catalog : content) (log : list Updater.event)
  (catalog' : json) :
  Updater.reconcile counts catalog = (log, Ok (catalog', 0%nat)) -> log = [].
Proof.
  intros H.
  destruct (reconcile_returns _ _ _ _ _ H)
    as (ac & items & cm & top & dv & decks & _ & _ & _ & _ & _ & _ & Hok & Hu & _ & Hn).
  destruct (update_decks_ok cm decks 0 Hok) as (log' & Hu' & Hsilent).
  rewrite Hu in Hu'. injection Hu' as <- _.
  symmetry in Hn. apply length_zero_iff_nil in Hn. now apply Hsilent.
Qed.

End SecondRun.

Section SecondRunClaim.
Import Py Disk Design.

(** C3.  When both documents exist, the results document has no
    dictionary with a repeated key (as every document [json.load] reads), no
    record of it has [nan] as its count or its size, and a first run
    returns, a second run on the files the first one left finds no deck to
    update: its reconciliation returns 0, it prints that the counts are
    already accurate and nothing else, it writes nothing, and the files are
    as the first run left them. *)
Theorem updater_second_run_changes_nothing
  (fs : Updater.files) (counts : json) (catalog : content) :
  Updater.counts_file fs = Some (Doc counts) ->
  Updater.catalog_file fs = Some catalog ->
  unique_keys counts = true ->
  without_nan counts = true ->
  Updater.status (Updater.execute fs) = Ok tt ->
  let first := Updater.disk (Updater.execute fs) in
  (exists catalog1 catalog2,
      Updater.counts_file first = Some (Doc counts)
      /\ Updater.catalog_file first = Some catalog1
      /\ Updater.reconcile (Doc counts) catalog1 = ([], Ok (catalog2, 0%nat)))
  /\ Updater.execute first
     = {| Updater.trace := [Updater.Print Updater.AlreadyAccurate];
          Updater.status := Ok tt;
          Updater.disk := first |}
  /\ existsb writes_catalog (Updater.trace (Updater.execute first)) = false.
Proof.
  intros Hc Hcat Hu Hnan Hst first.
  pose proof (execute_cases fs) as H. rewrite Hc, Hcat in H.
  destruct (Updater.reconcile (Doc counts) catalog)
    as [log [[catalog' [|n]]|e]] eqn:Hr.
  - assert (first = fs) as -> by (subst first; now rewrite H).
    pose proof (reconcile_zero_silent _ _ _ _ Hr) as ->.
    rewrite H; simpl. repeat split. now exists catalog, catalog'.
  - assert (first = {| Updater.counts_file := Some (Doc counts);
                       Updater.catalog_file := Some (Doc catalog') |}) as ->
      by (subst first; now rewrite H).
    clear H Hst.
    pose proof Hr as Hr'.
    apply reconcile_updated_lists in Hr'
      as (items & cm & top & decks & Hcounts & Hmap & -> & Hd & Hok & -> & _).
    injection Hcounts as ->.
    assert (forall k c s, cm !! k = Some (c, s) ->
                          unique_keys c = true /\ unique_keys s = true) as Hvals.
    { eapply (build_count_map_unique (E := Updater.event) items ∅ cm []);
        [now apply unique_keys_items | | exact Hmap].
      intros k c s Hk. now rewrite lookup_empty in Hk. }
    assert (forall k c s, cm !! k = Some (c, s) ->
                          is_nan c = false /\ is_nan s = false) as Hnans.
    { eapply (build_count_map_without_nan (E := Updater.event) items ∅ cm []);
        [exact Hnan | | exact Hmap].
      intros k c s Hk. now rewrite lookup_empty in Hk. }
    destruct (reconciled_twice cm Hvals Hnans decks Hok) as [Hok2 Hnil].
    destruct (reconcile_ok items cm
                (dict_set "decks" (JArr (map (reconciled cm) decks)) top)
                (map (reconciled cm) decks) Hmap (dict_get_set_eq _ _ _) Hok2)
      as (log2 & Hr2).
    rewrite Hnil in Hr2. simpl length in Hr2.
    pose proof (reconcile_zero_silent _ _ _ _ Hr2) as ->.
    rewrite (execute_accurate
               {| Updater.counts_file := Some (Doc (JArr items));
                  Updater.catalog_file :=
                    Some (Doc (JObj (dict_set "decks"
                                       (JArr (map (reconciled cm) decks)) top))) |}
               _ _ _ _ eq_refl eq_refl Hr2).
    simpl. repeat split. eauto.
  - rewrite H in Hst. discriminate.
Qed.

Lemma updater_second_run_changes_nothing_witness :
  let fs := french_files "https://cdn.example/decks" in
  let first := Updater.disk (Updater.execute fs) in
  (Updater.counts_file fs = Some (Doc french_results)
   /\ Updater.catalog_file fs
      = Some (Doc (french_catalog "https://cdn.example/decks"
                     (JInt 1000) (JInt 4000000)))
   /\ unique_keys french_results = true
   /\ without_nan french_results = true
   /\ Updater.status (Updater.execute fs) = Ok tt)
  /\ (exists catalog1 catalog2,
        Updater.counts_file first = Some (Doc french_results)
        /\ Updater.catalog_file first = Some catalog1
        /\ Updater.reconcile (Doc french_results) catalog1
           = ([], Ok (catalog2, 0%nat)))
  /\ Updater.execute first
     = {| Updater.trace := [Updater.Print Updater.AlreadyAccurate];
          Updater.status := Ok tt;
          Updater.disk := first |}
  /\ existsb writes_catalog (Updater.trace (Updater.execute first)) = false.
Proof.
  intros fs first. split.
  - repeat split; vm_compute; reflexivity.
  - apply (updater_second_run_changes_nothing fs french_results
             (Doc (french_catalog "https://cdn.example/decks"
                     (JInt 1000) (JInt 4000000))));
      vm_compute; reflexivity.
Defined.

(** A results document whose record has [NaN] for its count, which
    [json.load] reads and [json.dump] writes: the first run returns and
    updates the deck, and the second run, on the files the first one left,
    finds the count different again ([nan != nan]), updates the deck again
    and writes the catalog again. *)
Lemma updater_second_run_nan_counterexample :
  let fs := nan_files in
  let first := Updater.disk (Updater.execute fs) in
  let updated :=
    french_catalog "https://cdn.example/decks" (JFloat FNan) (JInt 5242880) in
  Updater.counts_file fs = Some (Doc nan_results)
  /\ unique_keys nan_results = true
  /\ Updater.status (Updater.execute fs) = Ok tt
  /\ first = {| Updater.counts_file := Some (Doc nan_results);
                Updater.catalog_file := Some (Doc updated) |}
  /\ Updater.execute first
     = {| Updater.trace :=
            [Updater.Print (Updater.DeckChanged (JStr "French"));
             Updater.Print (Updater.CardsChanged (JFloat FNan) (JFloat FNan));
             Updater.WriteCatalog updated;
             Updater.Print (Updater.UpdatedDecks 1)];
          Updater.status := Ok tt;
          Updater.disk := first |}
  /\ existsb writes_catalog (Updater.trace (Updater.execute first)) = true.
Proof. vm_compute. repeat split; reflexivity. Qed.

End SecondRunClaim.

(** ** The counter *)

Section CounterLemmas.
Import Py Disk Design.

(** A file size can always be divided: it is far below the limit. *)
Lemma true_div_mib_size (f : Counter.found) :
  true_div_mib (E := Counter.event) (JInt (Counter.st_size f)) = ret tt.
Proof.
  apply true_div_mib_divisible. unfold divisible, Counter.st_size.
  assert (2 ^ 63 <= float_limit * mib)%Z as Hlim by (vm_compute; discriminate).
  destruct (Counter.file f) as [[v Hv] body | children]; simpl.
  - apply andb_prop in Hv as [H0 H1].
    apply Z.leb_le in H0. apply Z.ltb_lt in H1. apply Z.ltb_lt. lia.
  - apply Z.ltb_lt. lia.
Qed.

(** The names are tried in order: the newer one, then the legacy one. *)
Lemma find_db_priority (entries : gmap string Counter.sqlite_result) :
  Counter.find_db Counter.db_names entries
  = match entries !! "collection.anki21", entries !! "collection.anki2" with
    | Some _, _ => Some "collection.anki21"
    | None, Some _ => Some "collection.anki2"
    | None, None => None
    end.
Proof.
  unfold Counter.db_names; simpl.
  destruct (entries !! "collection.anki21"); [reflexivity |].
  now destruct (entries !! "collection.anki2").
Qed.

(** What [get_card_count] does, case by case; it never raises. *)
Lemma get_card_count_cases (apkg : Counter.archive) :
  Counter.get_card_count apkg
  = match apkg with
    | Counter.BadArchive => ([Counter.PrintError BadZipFile], Ok None)
    | Counter.Extracted entries =>
        match Counter.find_db Counter.db_names entries with
        | None => ([], Ok None)
        | Some db_path =>
            match entries !! db_path with
            | Some (Counter.Cards count) => ([], Ok (Some count))
            | _ => ([Counter.PrintError DatabaseError], Ok None)
            end
        end
    end.
Proof.
  unfold Counter.get_card_count, Counter.extractall, Counter.count_cards.
  destruct apkg as [|entries]; [reflexivity |]. mstep.
  destruct (Counter.find_db Counter.db_names entries) as [db|]; [| reflexivity].
  destruct (entries !! db) as [[count|]|]; reflexivity.
Qed.

Lemma get_card_count_returns (apkg : Counter.archive) :
  exists log count,
    Counter.get_card_count apkg = (log, Ok count)
    /\ existsb writes_results log = false.
Proof.
  rewrite get_card_count_cases. destruct apkg as [|entries]; [eauto |].
  destruct (Counter.find_db Counter.db_names entries) as [db|]; [| eauto].
  destruct (entries !! db) as [[count|]|]; eauto.
Qed.

(** One step of the loop where [os.stat] returns: the record is appended
    when there is a count, and nothing is when there is none; the step does
    not raise. *)
Lemma count_one_step (stat_fails : string -> bool) (f : Counter.found)
  (results : list json) :
  unreachable stat_fails f = false ->
  exists log,
    Counter.count_one stat_fails f results
    = (log, Ok (results ++ match count_of f with
                           | Some count => [record_of f count]
                           | None => []
                           end))
    /\ existsb writes_results log = false.
Proof.
  unfold unreachable, Counter.count_one, Counter.getsize, count_of. intros ->.
  cbv iota. mstep. rewrite true_div_mib_size. mstep.
  destruct (get_card_count_returns (Counter.contents f)) as (log & count & Hg & Hw).
  rewrite Hg. mstep. destruct count as [count|]; mstep; simpl.
  - eexists. split; [reflexivity |]. simpl.
    rewrite existsb_app, Hw. reflexivity.
  - eexists. split; [now rewrite app_nil_r |]. simpl.
    rewrite existsb_app, Hw. reflexivity.
Qed.

(** One step of the loop where [os.stat] fails: it raises at once. *)
Lemma count_one_unreachable (stat_fails : string -> bool) (f : Counter.found)
  (results : list json) :
  unreachable stat_fails f = true ->
  Counter.count_one stat_fails f results = ([], Raise OSError).
Proof.
  unfold unreachable, Counter.count_one, Counter.getsize. now intros ->.
Qed.

Lemma count_each_records (stat_fails : string -> bool) (files : list Counter.found)
  (results : list json) :
  existsb (unreachable stat_fails) files = false ->
  exists log,
    Counter.count_each stat_fails files results = (log, Ok (results ++ records files))
    /\ existsb writes_results log = false.
Proof.
  revert results; induction files as [|f files IH]; intros results; simpl.
  - intros _. exists []. now rewrite app_nil_r.
  - intros H. apply orb_false_elim in H as [Hf Hfiles].
    destruct (count_one_step stat_fails f results Hf) as (l1 & H1 & Hw1).
    destruct (IH (results ++ match count_of f with
                             | Some count => [record_of f count]
                             | None => []
                             end) Hfiles) as (l2 & H2 & Hw2).
    rewrite H1, bind_pair_ok, H2. simpl.
    exists (l1 ++ l2). split; [now rewrite <- app_assoc |].
    now rewrite existsb_app, Hw1, Hw2.
Qed.

(** The loop stops at the first archive that [os.stat] cannot reach. *)
Lemma count_each_stops (stat_fails : string -> bool) (files : list Counter.found)
  (results : list json) :
  existsb (unreachable stat_fails) files = true ->
  exists log,
    Counter.count_each stat_fails files results = (log, Raise OSError)
    /\ existsb writes_results log = false.
Proof.
  revert results; induction files as [|f files IH]; intros results; simpl;
    [discriminate |].
  destruct (unreachable stat_fails f) eqn:Hf; simpl.
  - intros _. rewrite (count_one_unreachable _ _ _ Hf). now exists [].
  - intros Hfiles.
    destruct (count_one_step stat_fails f results Hf) as (l1 & H1 & Hw1).
    destruct (IH (results ++ match count_of f with
                             | Some count => [record_of f count]
                             | None => []
                             end) Hfiles) as (l2 & H2 & Hw2).
    rewrite H1, bind_pair_ok, H2. simpl.
    exists (l1 ++ l2). split; [reflexivity |].
    now rewrite existsb_app, Hw1, Hw2.
Qed.

Lemma no_failure_reachable (files : list Counter.found) :
  existsb (unreachable Counter.no_failure) files = false.
Proof. now induction files. Qed.


Lemma count_all_cons (f : Counter.found) (rest : list Counter.found)
  (results : list json) :
  Counter.count_all (f :: rest) results
  = bind (Counter.count_one Counter.no_failure f results) (Counter.count_all rest).
Proof. reflexivity. Qed.






Lemma insert_sorted_In (x y : Counter.found) (l : list Counter.found) :
  In y (Counter.insert_sorted x l) <-> y = x \/ In y l.
Proof.
  induction l as [|z l IH]; simpl; [intuition |].
  destruct (Counter.path_le x z); simpl; [intuition |].
  rewrite IH. intuition.
Qed.

Lemma sorted_In (y : Counter.found) (l : list Counter.found) :
  In y (Counter.sorted l) <-> In y l.
Proof.
  induction l as [|x l IH]; simpl; [tauto |].
  rewrite insert_sorted_In, IH. intuition.
Qed.

Lemma records_In (files : list Counter.found) (f : Counter.found) (count : Z) :
  In f files -> count_of f = Some count -> In (record_of f count) (records files).
Proof.
  intros Hin Hc. unfold records. apply in_flat_map. exists f.
  rewrite Hc. split; [exact Hin | now left].
Qed.

End CounterLemmas.

Section CounterRun.
Import Py Disk Design.

Lemma existsb_unreachable_sorted (stat_fails : string -> bool)
  (files : list Counter.found) :
  existsb (unreachable stat_fails) (Counter.sorted files)
  = existsb (unreachable stat_fails) files.
Proof.
  apply eq_true_iff_eq. rewrite !existsb_exists.
  split; intros (f & Hin & Hf); exists f; split; auto; now apply sorted_In.
Qed.

(** The run of the counter, by cases on the arguments, on what the walk
    finds and on whether [os.stat] reaches every archive found. *)
Lemma main_cases_on (stat_fails : string -> bool) (argv : list string)
  (at_path : string -> option Counter.node) :
  match argv !! 1%nat with
  | None => Counter.main stat_fails argv at_path
            = ([Counter.Print Counter.Usage], Raise (SystemExit 1))
  | Some p =>
      match Counter.exists_at stat_fails at_path p with
      | None => Counter.main stat_fails argv at_path
                = ([Counter.Print (Counter.DirectoryNotFound p)], Raise (SystemExit 1))
      | Some top =>
          match Counter.walk p [] top with
          | [] => Counter.main stat_fails argv at_path
                  = ([Counter.Print (Counter.Scanning p);
                      Counter.Print Counter.NoArchives], Raise (SystemExit 1))
          | (_ :: _) as files =>
              exists log,
                existsb writes_results log = false
                /\ Counter.main stat_fails argv at_path
                   = if existsb (unreachable stat_fails) files
                     then (log, Raise OSError)
                     else (log ++ [Counter.WriteResults
                                     (JArr (records (Counter.sorted files)));
                                   Counter.Print Counter.Saved], Ok tt)
          end
      end
  end.
Proof.
  unfold Counter.main, Counter.argument.
  destruct argv as [|a [|p rest]]; try reflexivity.
  cbn [length Nat.ltb Nat.leb]. simpl (_ !! _). mstep.
  destruct (Counter.exists_at stat_fails at_path p) as [top|]; [| reflexivity].
  destruct (Counter.walk p [] top) as [|f files] eqn:Hw; [reflexivity |].
  destruct (existsb (unreachable stat_fails) (f :: files)) eqn:Hex.
  - destruct (count_each_stops stat_fails (Counter.sorted (f :: files)) [])
      as (log & Hc & Hlog); [now rewrite existsb_unreachable_sorted |].
    mstep. rewrite Hc. cbn [fst snd app emit bind].
    exists (Counter.Print (Counter.Scanning p)
            :: Counter.Print (Counter.FoundArchives (length (f :: files)))
            :: Counter.Print Counter.Rule :: log).
    split; [| reflexivity].
    cbn [existsb writes_results orb]. exact Hlog.
  - destruct (count_each_records stat_fails (Counter.sorted (f :: files)) [])
      as (log & Hc & Hlog); [now rewrite existsb_unreachable_sorted |].
    mstep. rewrite Hc. mstep. cbn [fst snd app emit].
    exists (Counter.Print (Counter.Scanning p)
            :: Counter.Print (Counter.FoundArchives (length (f :: files)))
            :: Counter.Print Counter.Rule
            :: log ++
               [Counter.Print Counter.Rule;
                Counter.Print
                  (Counter.ReadDecks (length (records (Counter.sorted (f :: files))))
                     (length (f :: files)));
                Counter.Print
                  (Counter.FolderReport (records (Counter.sorted (f :: files))))]).
    split.
    + cbn [existsb writes_results orb]. rewrite existsb_app, Hlog. reflexivity.
    + cbn [app]. rewrite <- app_assoc. reflexivity.
Qed.

(** The same on a disk on which [os.stat] fails nowhere. *)
Lemma main_cases (argv : list string) (at_path : string -> option Counter.node) :
  match argv !! 1%nat with
  | None => Counter.main Counter.no_failure argv at_path
            = ([Counter.Print Counter.Usage], Raise (SystemExit 1))
  | Some p =>
      match at_path p with
      | None => Counter.main Counter.no_failure argv at_path
                = ([Counter.Print (Counter.DirectoryNotFound p)], Raise (SystemExit 1))
      | Some top =>
          match Counter.walk p [] top with
          | [] => Counter.main Counter.no_failure argv at_path
                  = ([Counter.Print (Counter.Scanning p);
                      Counter.Print Counter.NoArchives], Raise (SystemExit 1))
          | (_ :: _) as files =>
              exists log,
                existsb writes_results log = false
                /\ Counter.main Counter.no_failure argv at_path
                   = (log ++ [Counter.WriteResults (JArr (records (Counter.sorted files)));
                              Counter.Print Counter.Saved], Ok tt)
          end
      end
  end.
Proof.
  pose proof (main_cases_on Counter.no_failure argv at_path) as H.
  destruct (argv !! 1%nat) as [p|]; [| exact H].
  change (Counter.exists_at Counter.no_failure at_path p) with (at_path p) in H.
  destruct (at_path p) as [top|]; [| exact H].
  destruct (Counter.walk p [] top) as [|f files]; [exact H |].
  cbv zeta in H. now rewrite no_failure_reachable in H.
Qed.

Lemma results_after_no_write (before : option content) (log : list Counter.event) :
  existsb writes_results log = false -> Counter.results_after before log = before.
Proof.
  unfold Counter.results_after. induction log as [|ev log IH]; simpl; [reflexivity |].
  destruct ev; simpl; auto; discriminate.
Qed.

Lemma results_after_write (before : option content) (log : list Counter.event)
  (results : json) :
  Counter.results_after before
    (log ++ [Counter.WriteResults results; Counter.Print Counter.Saved])
  = Some (Doc results).
Proof. unfold Counter.results_after. now rewrite fold_left_app. Qed.

(** A run that finds archives ends with status 0 and has written the
    records of the archives with a count, in the order of the paths. *)
Lemma execute_found (argv : list string) (at_path : string -> option Counter.node)
  (before : option content) (p : string) (top : Counter.node) :
  argv !! 1%nat = Some p -> at_path p = Some top -> Counter.walk p [] top <> [] ->
  Counter.exit (Counter.execute argv at_path before) = 0%Z
  /\ Counter.results_file (Counter.execute argv at_path before)
     = Some (Doc (JArr (records (Counter.sorted (Counter.walk p [] top))))).
Proof.
  intros Ha Hp Hw. pose proof (main_cases argv at_path) as H.
  rewrite Ha, Hp in H. destruct (Counter.walk p [] top) as [|f files]; [congruence |].
  destruct H as (log & Hlog & H). unfold Counter.execute, Counter.execute_on.
  rewrite H. simpl.
  split; [reflexivity | apply results_after_write].
Qed.

(** The status and the results document after a run, by the cases of
    [main_cases_on]. *)
Lemma counter_execute_cases_on (stat_fails : string -> bool) (argv : list string)
  (at_path : string -> option Counter.node) (before : option content) :
  let r := Counter.execute_on stat_fails argv at_path before in
  let stopped :=
    Counter.exit r = 1%Z
    /\ existsb writes_results (Counter.trace r) = false
    /\ Counter.results_file r = before in
  match argv !! 1%nat with
  | None => stopped
  | Some p =>
      match Counter.exists_at stat_fails at_path p with
      | None => stopped
      | Some top =>
          match Counter.walk p [] top with
          | [] => stopped
          | (_ :: _) as files =>
              if existsb (unreachable stat_fails) files then stopped
              else
                Counter.exit r = 0%Z
                /\ Counter.results_file r
                   = Some (Doc (JArr (records (Counter.sorted files))))
          end
      end
  end.
Proof.
  pose proof (main_cases_on stat_fails argv at_path) as H.
  unfold Counter.execute_on. cbv zeta.
  destruct (argv !! 1%nat) as [p|]; [| now rewrite H].
  destruct (Counter.exists_at stat_fails at_path p) as [top|]; [| now rewrite H].
  destruct (Counter.walk p [] top) as [|f files]; [now rewrite H |].
  destruct H as (log & Hlog & H). rewrite H.
  destruct (existsb (unreachable stat_fails) (f :: files)); simpl.
  - split; [reflexivity |]. split; [exact Hlog | now apply results_after_no_write].
  - split; [reflexivity | apply results_after_write].
Qed.

(** The same on a disk on which [os.stat] fails nowhere. *)
Lemma counter_execute_cases (argv : list string)
  (at_path : string -> option Counter.node) (before : option content) :
  let r := Counter.execute argv at_path before in
  let stopped :=
    Counter.exit r = 1%Z
    /\ existsb writes_results (Counter.trace r) = false
    /\ Counter.results_file r = before in
  match argv !! 1%nat with
  | None => stopped
  | Some p =>
      match at_path p with
      | None => stopped
      | Some top =>
          match Counter.walk p [] top with
          | [] => stopped
          | (_ :: _) as files =>
              Counter.exit r = 0%Z
              /\ Counter.results_file r
                 = Some (Doc (JArr (records (Counter.sorted files))))
          end
      end
  end.
Proof.
  pose proof (counter_execute_cases_on Counter.no_failure argv at_path before) as H.
  cbv zeta in *. fold (Counter.execute argv at_path before) in H.
  destruct (argv !! 1%nat) as [p|]; [| exact H].
  change (Counter.exists_at Counter.no_failure at_path p) with (at_path p) in H.
  destruct (at_path p) as [top|]; [| exact H].
  destruct (Counter.walk p [] top) as [|f files]; [exact H |].
  cbv zeta in H. now rewrite no_failure_reachable in H.
Qed.

End CounterRun.

Section CounterClaims.
Import Py Disk Design.



(** C8.  The two database names are tried in order, the newer one first.
    For an archive that holds neither, [get_card_count] returns no count
    (and raises nothing); the loop prints the failure, appends no record
    and goes on with the next archive; and a run that found the archive
    among others ends with status 0 and has written the results. *)
Theorem counter_skips_archive_without_database
  (entries : gmap string Counter.sqlite_result) (f : Counter.found) :
  no_database entries ->
  Counter.contents f = Counter.Extracted entries ->
  (forall any : gmap string Counter.sqlite_result,
      Counter.find_db Counter.db_names any
      = match any !! "collection.anki21", any !! "collection.anki2" with
        | Some _, _ => Some "collection.anki21"
        | None, Some _ => Some "collection.anki2"
        | None, None => None
        end)
  /\ Counter.get_card_count (Counter.contents f) = ([], Ok None)
  /\ counted f = false
  /\ (forall (rest : list Counter.found) (results : list json),
        Counter.count_all (f :: rest) results
        = (Counter.Print (Counter.Progress (Counter.basename (Counter.file_path f)))
           :: Counter.Print Counter.Failed
           :: fst (Counter.count_all rest results),
           snd (Counter.count_all rest results)))
  /\ (forall (argv : list string) (at_path : string -> option Counter.node)
             (before : option content) (p : string) (top : Counter.node),
        argv !! 1%nat = Some p -> at_path p = Some top ->
        In f (Counter.walk p [] top) ->
        Counter.exit (Counter.execute argv at_path before) = 0%Z
        /\ Counter.results_file (Counter.execute argv at_path before)
           = Some (Doc (JArr (records (Counter.sorted (Counter.walk p [] top)))))).
Proof.
  intros [H21 H2] Hf.
  assert (Counter.get_card_count (Counter.contents f) = ([], Ok None)) as Hg.
  { rewrite get_card_count_cases, Hf, find_db_priority, H21, H2. reflexivity. }
  split; [exact find_db_priority |].
  split; [exact Hg |].
  split; [unfold counted, count_of; now rewrite Hg |].
  split.
  - intros rest results. rewrite count_all_cons.
    unfold Counter.count_one, Counter.getsize, Counter.no_failure. cbv iota. mstep.
    rewrite true_div_mib_size, Hg. mstep. simpl.
    now destruct (Counter.count_all rest results).
  - intros argv at_path before p top Ha Hp Hin.
    apply execute_found; auto. intros Hnil. now rewrite Hnil in Hin.
Qed.

Lemma counter_skips_archive_without_database_witness :
  (no_database sample_entries_no_database
   /\ Counter.contents sample_no_database_found
      = Counter.Extracted sample_entries_no_database)
  /\ Counter.get_card_count (Counter.contents sample_no_database_found) = ([], Ok None)
  /\ counted sample_no_database_found = false
  /\ Counter.exit (Counter.execute ["get-card-counts.py"; "decks"] sample_disk None)
     = 0%Z.
Proof.
  assert (no_database sample_entries_no_database) as Hno
    by (split; vm_compute; reflexivity).
  destruct (counter_skips_archive_without_database
              sample_entries_no_database sample_no_database_found Hno eq_refl)
    as (_ & Hg & Hc & _ & Hrun).
  repeat split; try assumption; try (vm_compute; reflexivity).
Defined.

(** C9.  For an archive whose database is found and holds no card,
    [get_card_count] returns the count 0, which is a count and not the
    absence of one; the loop appends the record with count 0; and a run
    that found the archive has written that record in the results. *)
Theorem counter_records_archive_without_cards
  (entries : gmap string Counter.sqlite_result) (db : string) (f : Counter.found) :
  Counter.contents f = Counter.Extracted entries ->
  Counter.find_db Counter.db_names entries = Some db ->
  entries !! db = Some (Counter.Cards 0) ->
  Counter.get_card_count (Counter.contents f) = ([], Ok (Some 0%Z))
  /\ Counter.get_card_count (Counter.contents f) <> ([], Ok None)
  /\ counted f = true
  /\ (forall (rest : list Counter.found) (results : list json),
        snd (Counter.count_all (f :: rest) results)
        = snd (Counter.count_all rest (results ++ [record_of f 0])))
  /\ (forall (argv : list string) (at_path : string -> option Counter.node)
             (before : option content) (p : string) (top : Counter.node),
        argv !! 1%nat = Some p -> at_path p = Some top ->
        In f (Counter.walk p [] top) ->
        exists results,
          Counter.results_file (Counter.execute argv at_path before)
          = Some (Doc (JArr results))
          /\ In (record_of f 0) results).
Proof.
  intros Hf Hdb Hcards.
  assert (Counter.get_card_count (Counter.contents f) = ([], Ok (Some 0%Z))) as Hg.
  { rewrite get_card_count_cases, Hf, Hdb, Hcards. reflexivity. }
  assert (count_of f = Some 0%Z) as Hc by (unfold count_of; now rewrite Hg).
  split; [exact Hg |].
  split; [rewrite Hg; discriminate |].
  split; [unfold counted; now rewrite Hc |].
  split.
  - intros rest results. rewrite count_all_cons.
    unfold Counter.count_one, Counter.getsize, Counter.no_failure. cbv iota. mstep.
    rewrite true_div_mib_size, Hg. mstep. simpl.
    fold (record_of f 0).
    now destruct (Counter.count_all rest (results ++ [record_of f 0])).
  - intros argv at_path before p top Ha Hp Hin.
    destruct (execute_found argv at_path before p top Ha Hp) as [_ Hr].
    { intros Hnil. now rewrite Hnil in Hin. }
    eexists. split; [exact Hr |].
    apply records_In; [| exact Hc]. now apply sorted_In.
Qed.

Lemma counter_records_archive_without_cards_witness :
  (Counter.contents sample_empty_found = Counter.Extracted sample_entries_empty
   /\ Counter.find_db Counter.db_names sample_entries_empty = Some "collection.anki21"
   /\ sample_entries_empty !! "collection.anki21" = Some (Counter.Cards 0))
  /\ Counter.get_card_count (Counter.contents sample_empty_found)
     = ([], Ok (Some 0%Z))
  /\ counted sample_empty_found = true
  /\ exists results,
       Counter.results_file
         (Counter.execute ["get-card-counts.py"; "decks"] sample_disk None)
       = Some (Doc (JArr results))
       /\ In (record_of sample_empty_found 0) results.
Proof.
  assert (Counter.find_db Counter.db_names sample_entries_empty
          = Some "collection.anki21") as Hdb by (vm_compute; reflexivity).
  assert (sample_entries_empty !! "collection.anki21" = Some (Counter.Cards 0))
    as Hcards by (vm_compute; reflexivity).
  destruct (counter_records_archive_without_cards
              sample_entries_empty "collection.anki21" sample_empty_found
              eq_refl Hdb Hcards)
    as (Hg & _ & Hc & _ & Hrun).
  repeat split; try assumption.
  apply (Hrun ["get-card-counts.py"; "decks"] sample_disk None "decks" sample_tree);
    try reflexivity.
  vm_compute. right. left. reflexivity.
Defined.



End CounterClaims.

(** ** The count mapping *)

Section CountMapping.
Import Py Disk Design Notions.

(** What the comprehension does with an item it accepts. *)
Lemma count_entry_ok_inv {E} (item : json) (m m' : gmap string (json * json))
  (l : list E) :
  Updater.count_entry item m = (l, Ok m') ->
  exists fields file count size,
    item = JObj fields
    /\ dict_get "file" fields = Some file
    /\ record_values item = Some (count, size)
    /\ ((exists name, file = JStr name /\ m' = <[name := (count, size)]> m)
        \/ (record_file item = None /\ m' = m)).
Proof.
  unfold Updater.count_entry, record_file, record_values. intros H.
  apply bind_ok_inv in H as (l1 & file & l1' & H1 & H & _).
  apply bind_ok_inv in H as (l2 & count & l2' & H2 & H & _).
  apply bind_ok_inv in H as (l3 & size & l3' & H3 & H & _).
  destruct item as [| | | | | |fields]; try discriminate.
  simpl in H1, H2, H3.
  destruct (dict_get "file" fields) as [vf|] eqn:Hf; [| discriminate].
  destruct (dict_get "count" fields) as [vc|] eqn:Hc; [| discriminate].
  destruct (dict_get "size" fields) as [vs|] eqn:Hs; [| discriminate].
  injection H1 as _ ->. injection H2 as _ ->. injection H3 as _ ->.
  exists fields, file, count, size.
  split; [reflexivity |]. split; [exact Hf |]. cbv beta iota. rewrite ?Hf, ?Hc, ?Hs.
  split; [reflexivity |].
  destruct file; try discriminate; injection H as _ <-;
    first [ left; eexists; split; reflexivity | right; split; reflexivity ].
Qed.

Lemma count_entry_other {E} (item : json) (m m' : gmap string (json * json))
  (l : list E) (name : string) :
  Updater.count_entry item m = (l, Ok m') ->
  record_file item <> Some name ->
  m' !! name = m !! name.
Proof.
  intros H Hne.
  apply count_entry_ok_inv in H
    as (fields & file & c & s & -> & Hf & _ & [(n & -> & ->) | (_ & ->)]);
    [| reflexivity].
  apply lookup_insert_ne. intros ->. apply Hne.
  unfold record_file. now rewrite Hf.
Qed.

Lemma build_count_map_other {E} (items : list json) (m m' : gmap string (json * json))
  (l : list E) (name : string) :
  Updater.build_count_map items m = (l, Ok m') ->
  Forall (fun item => record_file item <> Some name) items ->
  m' !! name = m !! name.
Proof.
  revert m l; induction items as [|item rest IH]; intros m l; simpl.
  - now intros [= _ <-].
  - intros H Hall. apply bind_ok_inv in H as (l1 & m1 & l2 & H1 & H2 & _).
    inversion Hall as [|? ? Hitem Hrest]; subst.
    rewrite (IH _ _ H2 Hrest). eapply count_entry_other; eauto.
Qed.

Lemma build_count_map_app_inv {E} (before after : list json)
  (m m' : gmap string (json * json)) (l : list E) :
  Updater.build_count_map (before ++ after) m = (l, Ok m') ->
  exists (l1 : list E) m1 (l2 : list E),
    Updater.build_count_map before m = (l1, Ok m1)
    /\ Updater.build_count_map after m1 = (l2, Ok m').
Proof.
  revert m l; induction before as [|item rest IH]; intros m l; simpl.
  - intros H. exists [], m, l. auto.
  - intros H. apply bind_ok_inv in H as (l1 & m1 & l2 & H1 & H2 & _).
    destruct (IH _ _ H2) as (l3 & m3 & l4 & H3 & H4).
    exists (l1 ++ l3), m3, l4. split; [| exact H4].
    now rewrite H1, bind_pair_ok, H3.
Qed.

(** X1.  Of the records with one file name, the last one gives the count
    and the size the mapping holds for that name. *)
Theorem count_map_last_record_wins (before after : list json) (item : json)
  (name : string) (count_map : gmap string (json * json))
  (l : list Updater.event) :
  Updater.build_count_map (before ++ item :: after) ∅ = (l, Ok count_map) ->
  record_file item = Some name ->
  Forall (fun later => record_file later <> Some name) after ->
  count_map !! name = record_values item.
Proof.
  intros H Hfile Hafter.
  apply build_count_map_app_inv in H as (l1 & m1 & l2 & _ & H).
  simpl in H. apply bind_ok_inv in H as (l3 & m3 & l4 & H3 & H4 & _).
  rewrite (build_count_map_other _ _ _ _ _ H4 Hafter).
  apply count_entry_ok_inv in H3
    as (fields & file & c & s & -> & Hf & Hv & [(n & -> & ->) | (Hnone & _)]).
  - unfold record_file in Hfile. rewrite Hf in Hfile. injection Hfile as ->.
    now rewrite lookup_insert_eq.
  - congruence.
Qed.

Lemma count_entry_keeps_keys {E} (item : json) (m m' : gmap string (json * json))
  (l : list E) (name : string) :
  Updater.count_entry item m = (l, Ok m') ->
  is_Some (m !! name) \/ record_file item = Some name ->
  is_Some (m' !! name).
Proof.
  intros H Hk.
  apply count_entry_ok_inv in H
    as (fields & file & c & s & -> & Hf & _ & [(n & -> & ->) | (Hnone & ->)]).
  - unfold record_file in Hk. rewrite Hf in Hk.
    destruct (decide (n = name)) as [-> | Hne].
    + rewrite lookup_insert_eq. eauto.
    + rewrite lookup_insert_ne by exact Hne.
      destruct Hk as [Hk | Hk]; [exact Hk | congruence].
  - destruct Hk as [Hk | Hk]; [exact Hk | congruence].
Qed.

Lemma build_count_map_keeps_keys {E} (items : list json)
  (m m' : gmap string (json * json)) (l : list E) (name : string) :
  Updater.build_count_map items m = (l, Ok m') ->
  is_Some (m !! name)
  \/ (exists item, In item items /\ record_file item = Some name) ->
  is_Some (m' !! name).
Proof.
  revert m l; induction items as [|item rest IH]; intros m l; simpl.
  - intros [= _ <-] [Hk | (item & [] & _)]. exact Hk.
  - intros H Hk. apply bind_ok_inv in H as (l1 & m1 & l2 & H1 & H2 & _).
    apply (IH _ _ H2).
    destruct Hk as [Hk | (it & [<- | Hin] & Hfile)].
    + left. eapply count_entry_keeps_keys; eauto.
    + left. eapply count_entry_keeps_keys; eauto.
    + right. eauto.
Qed.

Lemma count_map_last_record_wins_witness :
  let count_map : gmap string (json * json) :=
    <["French.apkg" := (JInt 1200, JInt 5242880)]>
      (<["Spanish.apkg" := (JInt 900, JInt 3000000)]>
         (<["French.apkg" := (JInt 1100, JInt 5000000)]> ∅)) in
  let before := [sample_record "French.apkg" 1100 5000000;
                 sample_record "Spanish.apkg" 900 3000000] in
  let item := sample_record "French.apkg" 1200 5242880 in
  (Updater.build_count_map (E := Updater.event) (before ++ item :: []) ∅
   = ([], Ok count_map)
   /\ record_file item = Some "French.apkg"
   /\ Forall (fun later => record_file later <> Some "French.apkg") [])
  /\ count_map !! "French.apkg" = Some (JInt 1200, JInt 5242880).
Proof.
  intros count_map before item.
  assert (Updater.build_count_map (E := Updater.event) (before ++ item :: []) ∅
          = ([], Ok count_map)) as Hbuild by reflexivity.
  split.
  - split; [exact Hbuild |]. split; [reflexivity | constructor].
  - exact (count_map_last_record_wins before [] item "French.apkg" count_map []
             Hbuild eq_refl (List.Forall_nil _)).
Defined.

(** X2.  The keys of the mapping are exactly the file names of the
    records. *)
Theorem count_map_keys_are_record_files (items : list json)
  (count_map : gmap string (json * json)) (l : list Updater.event) :
  Updater.build_count_map items ∅ = (l, Ok count_map) ->
  forall name : string,
    is_Some (count_map !! name) <->
    exists item, In item items /\ record_file item = Some name.
Proof.
  intros H name. split.
  - intros Hk.
    destruct (build_count_map_lookup items ∅ count_map l name H Hk)
      as [[v Hv] | Hex]; [| exact Hex].
    now rewrite lookup_empty in Hv.
  - intros Hex. eapply build_count_map_keeps_keys; eauto.
Qed.

Lemma count_map_keys_are_record_files_witness :
  let count_map : gmap string (json * json) :=
    <["French.apkg" := (JInt 1200, JInt 5242880)]>
      (<["Spanish.apkg" := (JInt 900, JInt 3000000)]>
         (<["French.apkg" := (JInt 1100, JInt 5000000)]> ∅)) in
  Updater.build_count_map (E := Updater.event) sample_repeated ∅ = ([], Ok count_map)
  /\ (is_Some (count_map !! "Spanish.apkg") <->
      exists item, In item sample_repeated /\ record_file item = Some "Spanish.apkg").
Proof.
  intros count_map.
  assert (Updater.build_count_map (E := Updater.event) sample_repeated ∅
          = ([], Ok count_map)) as Hbuild by reflexivity.
  split; [exact Hbuild |].
  exact (count_map_keys_are_record_files sample_repeated count_map [] Hbuild
           "Spanish.apkg").
Defined.

End CountMapping.

(** ** Runs of the updater that stop, and runs that have nothing to do *)

Section UpdaterEdges.
Import Py Disk Design Notions.

Lemma update_decks_raises (count_map : gmap string (json * json))
  (decks : list json) (n : nat) :
  forallb (entry_ok count_map) decks = false ->
  exists log e, Updater.update_decks count_map decks n = (log, Raise e).
Proof.
  revert n; induction decks as [|deck rest IH]; intros n; simpl; [discriminate |].
  destruct (entry_ok count_map deck) eqn:Hok; simpl.
  - intros Hrest.
    destruct (update_deck_ok count_map deck Hok) as (l1 & Hd & _).
    destruct (IH (if needs_update count_map deck then S n else n) Hrest)
      as (l2 & e & Hr).
    rewrite Hd, bind_pair_ok. cbv beta iota. rewrite Hr. simpl. eauto.
  - intros _. destruct (update_deck_raises count_map deck Hok) as (l1 & e & Hd & _).
    rewrite Hd. simpl. eauto.
Qed.

(** X3.  One deck on which the body of the loop raises stops the whole
    run: it ends with that exception, nothing is written and the files are
    as they were, also when decks before it needed an update. *)
Theorem updater_bad_deck_stops_the_run (fs : Updater.files) (items : list json)
  (count_map : gmap string (json * json)) (top : list (string * json))
  (decks : list json) :
  Updater.counts_file fs = Some (Doc (JArr items)) ->
  Updater.build_count_map (E := Updater.event) items ∅ = ret count_map ->
  Updater.catalog_file fs = Some (Doc (JObj top)) ->
  dict_get "decks" top = Some (JArr decks) ->
  forallb (entry_ok count_map) decks = false ->
  (exists e, Updater.status (Updater.execute fs) = Raise e)
  /\ existsb writes_catalog (Updater.trace (Updater.execute fs)) = false
  /\ Updater.disk (Updater.execute fs) = fs.
Proof.
  intros Hc Hmap Hcat Hd Hbad.
  destruct (update_decks_raises count_map decks 0 Hbad) as (log & e & Hu).
  assert (Updater.reconcile (Doc (JArr items)) (Doc (JObj top)) = (log, Raise e))
    as Hr.
  { unfold Updater.reconcile, load, iterate, subscript.
    mstep. rewrite Hmap. mstep. rewrite Hd. mstep. now rewrite Hu. }
  pose proof (reconcile_no_write (Doc (JArr items)) (Doc (JObj top))) as Hw.
  rewrite Hr in Hw. simpl in Hw.
  rewrite (execute_raises fs _ _ log e Hc Hcat Hr). simpl. eauto.
Qed.

Lemma update_deck_unreadable (count_map : gmap string (json * json)) (deck : json)
  (e : exn) :
  unreadable deck = Some e ->
  Updater.update_deck count_map deck = ([], Raise e).
Proof.
  unfold unreadable, Updater.update_deck, subscript.
  destruct deck as [| | | | | |fields]; try (now intros [= <-]).
  destruct (dict_get "downloadUrl" fields) as [[| | | |url| |]|];
    try (now intros [= <-]); discriminate.
Qed.

Lemma update_decks_stop (count_map : gmap string (json * json))
  (good rest : list json) (bad : json) (n : nat) (lb : list Updater.event) (e : exn) :
  forallb (entry_ok count_map) good = true ->
  Updater.update_deck count_map bad = (lb, Raise e) ->
  exists log r,
    Updater.update_decks count_map good n = (log, Ok r)
    /\ Updater.update_decks count_map (good ++ bad :: rest) n = (log ++ lb, Raise e).
Proof.
  intros Hgood Hbad. revert n; induction good as [|d good IH]; intros n; simpl.
  - exists [], ([], n). rewrite Hbad. auto.
  - simpl in Hgood. apply andb_prop in Hgood as [Hd Hgood].
    destruct (update_deck_ok count_map d Hd) as (l1 & Hrun & _).
    destruct (IH Hgood (if needs_update count_map d then S n else n))
      as (l2 & [ds m] & Hok & Hstop).
    rewrite Hrun, !bind_pair_ok. cbv beta iota. rewrite Hok, Hstop. simpl.
    eexists (l1 ++ l2 ++ []), _. split; [reflexivity |].
    now rewrite app_nil_r, app_assoc.
Qed.

(** X4.  When the first deck the loop cannot go through is one it cannot
    read, the run ends with [TypeError] for a deck that is not a dictionary,
    [KeyError] for one without [downloadUrl] and [AttributeError] for one
    whose [downloadUrl] is not a string.  What it has printed is what the
    loop prints for the decks before it; nothing is written. *)
Theorem updater_unreadable_deck (fs : Updater.files) (items : list json)
  (count_map : gmap string (json * json)) (top : list (string * json))
  (good rest : list json) (bad : json) (e : exn) :
  Updater.counts_file fs = Some (Doc (JArr items)) ->
  Updater.build_count_map (E := Updater.event) items ∅ = ret count_map ->
  Updater.catalog_file fs = Some (Doc (JObj top)) ->
  dict_get "decks" top = Some (JArr (good ++ bad :: rest)) ->
  forallb (entry_ok count_map) good = true ->
  unreadable bad = Some e ->
  Updater.status (Updater.execute fs) = Raise e
  /\ Updater.trace (Updater.execute fs)
     = fst (Updater.update_decks count_map good 0)
  /\ Updater.disk (Updater.execute fs) = fs.
Proof.
  intros Hc Hmap Hcat Hd Hgood Hbad.
  destruct (update_decks_stop count_map good rest bad 0 [] e Hgood
              (update_deck_unreadable count_map bad e Hbad))
    as (log & r & Hok & Hstop).
  assert (Updater.reconcile (Doc (JArr items)) (Doc (JObj top)) = (log, Raise e))
    as Hr.
  { unfold Updater.reconcile, load, iterate, subscript.
    mstep. rewrite Hmap. mstep. rewrite Hd. mstep. rewrite Hstop.
    now rewrite app_nil_r. }
  rewrite (execute_raises fs _ _ log e Hc Hcat Hr), Hok. auto.
Qed.

(** X5.  A deck without [name] whose lookup key is in the mapping: the
    body of the loop returns it unchanged, printing nothing, when the stored
    values are the looked-up ones, and raises [KeyError], printing nothing
    and changing nothing, when they differ.  The name is needed only to
    report a change. *)
Theorem update_deck_without_name (count_map : gmap string (json * json))
  (fields : list (string * json)) (url : string) (new_count new_size : json) :
  dict_get "downloadUrl" fields = Some (JStr url) ->
  count_map !! lookup_key url = Some (new_count, new_size) ->
  dict_get "name" fields = None ->
  Updater.update_deck count_map (JObj fields)
  = if py_ne (stored fields "cardCount") new_count
       || py_ne (stored fields "size") new_size
    then ([], Raise KeyError)
    else ([], Ok (JObj fields, false)).
Proof.
  intros Hurl Hcm Hname. unfold Updater.update_deck, subscript.
  rewrite Hurl. mstep. rewrite derive_filename_key. mstep. rewrite Hcm.
  rewrite !get_default_stored. mstep. rewrite Hname.
  now destruct (py_ne (stored fields "cardCount") new_count
                || py_ne (stored fields "size") new_size).
Qed.

Lemma needs_update_empty (decks : list json) :
  List.filter (needs_update ∅) decks = [].
Proof.
  induction decks as [|d decks IH]; [reflexivity |]. simpl.
  destruct (needs_update ∅ d) eqn:Hd; [| exact IH].
  apply needs_update_looked_up in Hd as (? & ? & ? & ? & _ & _ & Hl & _).
  now rewrite lookup_empty in Hl.
Qed.

(** X6.  With a results document that is an empty list, a run never
    writes and leaves the files as they were, whatever the catalog holds;
    when it returns it has printed that the counts are accurate and nothing
    else. *)
Theorem updater_empty_results_change_nothing (fs : Updater.files) (catalog : content) :
  Updater.counts_file fs = Some (Doc (JArr [])) ->
  Updater.catalog_file fs = Some catalog ->
  Updater.disk (Updater.execute fs) = fs
  /\ existsb writes_catalog (Updater.trace (Updater.execute fs)) = false
  /\ (Updater.status (Updater.execute fs) = Ok tt ->
      Updater.trace (Updater.execute fs) = [Updater.Print Updater.AlreadyAccurate]).
Proof.
  intros Hc Hcat. pose proof (execute_cases fs) as H. rewrite Hc, Hcat in H.
  pose proof (reconcile_no_write (Doc (JArr [])) catalog) as Hw.
  destruct (Updater.reconcile (Doc (JArr [])) catalog)
    as [log [[catalog' [|n]]|e]] eqn:Hr.
  - rewrite H. simpl. auto.
  - exfalso. apply reconcile_updated_lists in Hr
      as (items & cm & top & decks & Hitems & Hmap & _ & _ & _ & _ & Hn).
    injection Hitems as <-. injection Hmap as <-.
    rewrite needs_update_empty in Hn. discriminate.
  - rewrite H. simpl in *. repeat split; auto. discriminate.
Qed.

Lemma dict_set_keys (k : string) (v : json) (d : list (string * json)) :
  (exists v0, dict_get k d = Some v0) ->
  map fst (dict_set k v d) = map fst d.
Proof.
  intros [v0 Hv]. induction d as [|[k' v'] d IH]; simpl in *; [discriminate |].
  destruct (String.eqb k k'); [reflexivity |]. simpl. now rewrite IH.
Qed.

(** X7.  Whatever a run does, a catalog that was a dictionary is
    afterwards a dictionary with the same keys in the same order, and every
    key other than [decks] has the value it had. *)
Theorem updater_keeps_catalog_keys (fs : Updater.files) (top : list (string * json)) :
  Updater.catalog_file fs = Some (Doc (JObj top)) ->
  exists top',
    Updater.catalog_file (Updater.disk (Updater.execute fs)) = Some (Doc (JObj top'))
    /\ map fst top' = map fst top
    /\ (forall k, k <> "decks" -> dict_get k top' = dict_get k top).
Proof.
  intros Hcat. pose proof (execute_cases fs) as H. rewrite Hcat in H.
  destruct (Updater.counts_file fs) as [counts|];
    [| exists top; now rewrite H].
  destruct (Updater.reconcile counts (Doc (JObj top)))
    as [log [[catalog' [|n]]|e]] eqn:Hr;
    try (exists top; now rewrite H).
  apply reconcile_updated_lists in Hr
    as (items & cm & top0 & decks & _ & _ & Htop & Hd & _ & -> & _).
  injection Htop as <-. rewrite H. simpl.
  eexists. split; [reflexivity |]. split.
  - apply dict_set_keys. eauto.
  - intros k Hk. apply dict_get_set_ne. congruence.
Qed.

End UpdaterEdges.

Section UpdaterEdgesWitnesses.
Import Py Disk Design Notions.

Lemma updater_bad_deck_stops_the_run_witness :
  let fs := sample_files_bad_deck in
  let items := [JObj [("folder", JStr "Languages"); ("file", JStr "French.apkg");
                      ("path", JStr "Languages/French.apkg");
                      ("count", JInt 1200); ("size", JInt 5242880)]] in
  let count_map : gmap string (json * json) :=
    <["French.apkg" := (JInt 1200, JInt 5242880)]> ∅ in
  let decks := [french_deck sample_url (JInt 1000) (JInt 4000000);
                sample_deck_without_url] in
  let top := [("decks", JArr decks)] in
  (Updater.counts_file fs = Some (Doc (JArr items))
   /\ Updater.build_count_map (E := Updater.event) items ∅ = ret count_map
   /\ Updater.catalog_file fs = Some (Doc (JObj top))
   /\ dict_get "decks" top = Some (JArr decks)
   /\ forallb (entry_ok count_map) decks = false)
  /\ (exists e, Updater.status (Updater.execute fs) = Raise e)
  /\ existsb writes_catalog (Updater.trace (Updater.execute fs)) = false
  /\ Updater.disk (Updater.execute fs) = fs.
Proof.
  intros fs items count_map decks top.
  assert (forallb (entry_ok count_map) decks = false) as Hbad
    by (vm_compute; reflexivity).
  split.
  - split; [reflexivity |]. split; [reflexivity |]. split; [reflexivity |].
    split; [reflexivity | exact Hbad].
  - exact (updater_bad_deck_stops_the_run fs items count_map top decks
             eq_refl eq_refl eq_refl eq_refl Hbad).
Defined.

Lemma updater_unreadable_deck_witness :
  let fs := sample_files_bad_deck in
  let items := [JObj [("folder", JStr "Languages"); ("file", JStr "French.apkg");
                      ("path", JStr "Languages/French.apkg");
                      ("count", JInt 1200); ("size", JInt 5242880)]] in
  let count_map : gmap string (json * json) :=
    <["French.apkg" := (JInt 1200, JInt 5242880)]> ∅ in
  let good := [french_deck sample_url (JInt 1000) (JInt 4000000)] in
  let top := [("decks", JArr (good ++ sample_deck_without_url :: []))] in
  (Updater.counts_file fs = Some (Doc (JArr items))
   /\ Updater.build_count_map (E := Updater.event) items ∅ = ret count_map
   /\ Updater.catalog_file fs = Some (Doc (JObj top))
   /\ dict_get "decks" top = Some (JArr (good ++ sample_deck_without_url :: []))
   /\ forallb (entry_ok count_map) good = true
   /\ unreadable sample_deck_without_url = Some KeyError)
  /\ Updater.status (Updater.execute fs) = Raise KeyError
  /\ Updater.trace (Updater.execute fs) = fst (Updater.update_decks count_map good 0)
  /\ Updater.disk (Updater.execute fs) = fs.
Proof.
  intros fs items count_map good top.
  assert (forallb (entry_ok count_map) good = true) as Hgood
    by (vm_compute; reflexivity).
  split.
  - split; [reflexivity |]. split; [reflexivity |]. split; [reflexivity |].
    split; [reflexivity |]. split; [exact Hgood | reflexivity].
  - exact (updater_unreadable_deck fs items count_map top good []
             sample_deck_without_url KeyError
             eq_refl eq_refl eq_refl eq_refl Hgood eq_refl).
Defined.

Lemma update_deck_without_name_witness :
  let count_map : gmap string (json * json) :=
    <["French.apkg" := (JInt 1200, JInt 5242880)]> ∅ in
  let url := (sample_url ++ "/French.apkg?token=x")%string in
  let stale := sample_fields_without_name (JInt 1000) (JInt 5242880) in
  let fresh := sample_fields_without_name (JInt 1200) (JInt 5242880) in
  (dict_get "downloadUrl" stale = Some (JStr url)
   /\ count_map !! lookup_key url = Some (JInt 1200, JInt 5242880)
   /\ dict_get "name" stale = None)
  /\ Updater.update_deck count_map (JObj stale) = ([], Raise KeyError)
  /\ Updater.update_deck count_map (JObj fresh) = ([], Ok (JObj fresh, false)).
Proof.
  intros count_map url stale fresh.
  assert (count_map !! lookup_key url = Some (JInt 1200, JInt 5242880)) as Hkey
    by (vm_compute; reflexivity).
  split; [split; [reflexivity | split; [exact Hkey | reflexivity]] |].
  split.
  - exact (update_deck_without_name count_map stale url (JInt 1200) (JInt 5242880)
             eq_refl Hkey eq_refl).
  - exact (update_deck_without_name count_map fresh url (JInt 1200) (JInt 5242880)
             eq_refl Hkey eq_refl).
Defined.

Lemma updater_empty_results_change_nothing_witness :
  let fs := sample_files_empty_results in
  let catalog := Doc (french_catalog sample_url (JInt 1000) (JInt 4000000)) in
  (Updater.counts_file fs = Some (Doc (JArr []))
   /\ Updater.catalog_file fs = Some catalog)
  /\ Updater.disk (Updater.execute fs) = fs
  /\ existsb writes_catalog (Updater.trace (Updater.execute fs)) = false
  /\ (Updater.status (Updater.execute fs) = Ok tt ->
      Updater.trace (Updater.execute fs) = [Updater.Print Updater.AlreadyAccurate]).
Proof.
  intros fs catalog. split; [split; reflexivity |].
  exact (updater_empty_results_change_nothing fs catalog eq_refl eq_refl).
Defined.

Lemma updater_keeps_catalog_keys_witness :
  let fs := french_files sample_url in
  let top := [("version", JInt 2);
              ("decks", JArr [french_deck sample_url (JInt 1000) (JInt 4000000)])] in
  Updater.catalog_file fs = Some (Doc (JObj top))
  /\ exists top',
       Updater.catalog_file (Updater.disk (Updater.execute fs)) = Some (Doc (JObj top'))
       /\ map fst top' = map fst top
       /\ (forall k, k <> "decks" -> dict_get k top' = dict_get k top).
Proof.
  intros fs top. split; [reflexivity |].
  exact (updater_keeps_catalog_keys fs top eq_refl).
Defined.

End UpdaterEdgesWitnesses.

(** ** More on the lookup key *)

Section LookupKeyMore.
Import Py Disk Design Notions.
Open Scope string_scope.

Lemma contains_cons (c d : ascii) (s : string) :
  contains c (String d s) = Ascii.eqb c d || contains c s.
Proof. reflexivity. Qed.

Lemma contains_app (c : ascii) (a b : string) :
  contains c (a ++ b) = contains c a || contains c b.
Proof.
  induction a as [|d a IH]; [reflexivity |].
  now rewrite string_app_cons, !contains_cons, IH, orb_assoc.
Qed.

Lemma segment_from_plain (s seg : string) :
  contains "/" s = false -> segment_from seg s = seg ++ s.
Proof.
  revert seg; induction s as [|c s IH]; intros seg; simpl.
  - now rewrite string_app_nil_r.
  - rewrite contains_cons. intros H. apply orb_false_elim in H as [Hc Hs].
    rewrite Ascii.eqb_sym, Hc, (IH _ Hs).
    now rewrite string_app_assoc, string_app_cons, string_app_nil_l.
Qed.

Lemma final_segment_plain (s : string) :
  contains "/" s = false -> final_segment s = s.
Proof. intros H. unfold final_segment. now rewrite segment_from_plain. Qed.

Lemma strip_query_plain (s : string) :
  contains "?" s = false -> strip_query s = s.
Proof.
  induction s as [|c s IH]; simpl; [reflexivity |].
  rewrite contains_cons. intros H. apply orb_false_elim in H as [Hc Hs].
  now rewrite Ascii.eqb_sym, Hc, IH.
Qed.

Lemma strip_query_app (s query : string) :
  contains "?" s = false -> strip_query (s ++ String "?" query) = s.
Proof.
  induction s as [|c s IH]; [reflexivity |].
  rewrite contains_cons, string_app_cons. intros H.
  apply orb_false_elim in H as [Hc Hs]. simpl.
  now rewrite Ascii.eqb_sym, Hc, IH.
Qed.

Lemma unquote_plain (s : string) : contains "%" s = false -> unquote s = s.
Proof. unfold unquote. now intros ->. Qed.

Lemma lookup_key_plain (name : string) :
  contains "/" name = false -> contains "?" name = false ->
  contains "%" name = false ->
  lookup_key name = name.
Proof.
  intros H1 H2 H3. unfold lookup_key.
  now rewrite (final_segment_plain name), strip_query_plain, unquote_plain,
    final_segment_plain.
Qed.

(** X8.  A file name without [/], [?] and [%] is the lookup key of every
    URL that ends in a [/] and that name, also when a query string without
    [/] follows the name. *)
Theorem derive_filename_plain_name (E : Type) (prefix name query : string) :
  contains "/" name = false ->
  contains "?" name = false ->
  contains "%" name = false ->
  contains "/" query = false ->
  Updater.derive_filename (E := E) (JStr (prefix ++ "/" ++ name)) = ret name
  /\ Updater.derive_filename (E := E) (JStr (prefix ++ "/" ++ name ++ "?" ++ query))
     = ret name.
Proof.
  intros H1 H2 H3 Hq.
  rewrite !derive_filename_key, !string_app_cons, !string_app_nil_l.
  rewrite !lookup_key_after_slash. split; [now rewrite lookup_key_plain |].
  unfold lookup_key. rewrite (final_segment_plain (name ++ String "?" query)).
  - now rewrite strip_query_app, unquote_plain, final_segment_plain.
  - rewrite contains_app, contains_cons, H1, Hq. reflexivity.
Qed.

Lemma derive_filename_plain_name_witness :
  (contains "/" "Kanji N5.apkg" = false
   /\ contains "?" "Kanji N5.apkg" = false
   /\ contains "%" "Kanji N5.apkg" = false
   /\ contains "/" "alt=media&token=abc" = false)
  /\ Updater.derive_filename (E := Updater.event)
       (JStr ("https://cdn.example/decks" ++ "/" ++ "Kanji N5.apkg")) = ret "Kanji N5.apkg"
  /\ Updater.derive_filename (E := Updater.event)
       (JStr ("https://cdn.example/decks" ++ "/" ++ "Kanji N5.apkg" ++ "?"
              ++ "alt=media&token=abc")) = ret "Kanji N5.apkg".
Proof.
  split; [repeat split |].
  exact (derive_filename_plain_name Updater.event "https://cdn.example/decks"
           "Kanji N5.apkg" "alt=media&token=abc" eq_refl eq_refl eq_refl eq_refl).
Defined.

(** X9.  The file name is taken after the last [/] of the whole URL, the
    query string included: what precedes that [/] plays no part, so a [/]
    inside the query string makes the derived name a piece of the query. *)
Theorem derive_filename_after_last_slash (E : Type) (before after name query tail : string) :
  Updater.derive_filename (E := E) (JStr (before ++ "/" ++ after))
  = Updater.derive_filename (E := E) (JStr after)
  /\ Updater.derive_filename (E := E)
       (JStr (before ++ "/" ++ name ++ "?" ++ query ++ "/" ++ tail))
     = Updater.derive_filename (E := E) (JStr tail).
Proof.
  rewrite !derive_filename_key. split.
  - now rewrite string_app_cons, string_app_nil_l, lookup_key_after_slash.
  - rewrite !string_app_cons, !string_app_nil_l.
    assert (before ++ String "/" (name ++ String "?" (query ++ String "/" tail))
            = (before ++ String "/" (name ++ String "?" query)) ++ String "/" tail)
      as ->.
    { rewrite (string_app_assoc before), string_app_cons.
      now rewrite (string_app_assoc name), string_app_cons. }
    now rewrite lookup_key_after_slash.
Qed.

Lemma all_ascii_cons (c : ascii) (s : string) :
  all_ascii (String c s) = is_ascii_char c && all_ascii s.
Proof. reflexivity. Qed.

Lemma all_ascii_app (a b : string) :
  all_ascii (a ++ b) = all_ascii a && all_ascii b.
Proof.
  induction a as [|c a IH]; [reflexivity |].
  now rewrite string_app_cons, !all_ascii_cons, IH, andb_assoc.
Qed.

Lemma utf8_replace_ascii (s : string) : all_ascii s = true -> utf8_replace s = s.
Proof.
  induction s as [|c s IH]; [reflexivity |].
  rewrite all_ascii_cons. intros H. apply andb_prop in H as [Hc Hs].
  simpl. unfold is_ascii_char in Hc. now rewrite Hc, IH.
Qed.

(** On ASCII characters only, the runs are one run. *)
Lemma unquote_parts_ascii (s run : string) :
  all_ascii s = true -> unquote_parts run s = unquote_run (run ++ s).
Proof.
  revert run; induction s as [|c s IH]; intros run.
  - now rewrite string_app_nil_r.
  - rewrite all_ascii_cons. intros H. apply andb_prop in H as [Hc Hs].
    simpl. rewrite Hc, (IH _ Hs).
    now rewrite string_app_assoc, string_app_cons, string_app_nil_l.
Qed.

Lemma split_plain (sep : ascii) (s : string) :
  contains sep s = false -> split sep s = [s].
Proof.
  induction s as [|c s IH]; [reflexivity |].
  rewrite contains_cons. intros H. apply orb_false_elim in H as [Hc Hs].
  simpl. now rewrite Ascii.eqb_sym, Hc, (IH Hs).
Qed.

Lemma split_app (sep : ascii) (a b : string) :
  contains sep a = false -> split sep (a ++ String sep b) = a :: split sep b.
Proof.
  induction a as [|c a IH].
  - intros _. rewrite string_app_nil_l. simpl. now rewrite Ascii.eqb_refl.
  - rewrite contains_cons, string_app_cons. intros H.
    apply orb_false_elim in H as [Hc Ha]. simpl.
    now rewrite Ascii.eqb_sym, Hc, (IH Ha).
Qed.

(** An escaped slash between two plain ASCII strings is decoded to a
    slash. *)
Lemma unquote_escaped_slash (dir name : string) (f : ascii) :
  f = "F"%char \/ f = "f"%char ->
  all_ascii dir = true -> all_ascii name = true ->
  contains "%" dir = false -> contains "%" name = false ->
  unquote (dir ++ String "%" (String "2" (String f name))) = dir ++ String "/" name.
Proof.
  intros Hf Hd Hn Hpd Hpn. unfold unquote.
  rewrite contains_app, contains_cons, Ascii.eqb_refl, orb_true_r.
  assert (all_ascii (String "%" (String "2" (String f name))) = true) as Hrest.
  { rewrite !all_ascii_cons, Hn. now destruct Hf as [-> | ->]. }
  rewrite unquote_parts_ascii by now rewrite all_ascii_app, Hd, Hrest.
  rewrite string_app_nil_l. unfold unquote_run, unquote_to_bytes.
  rewrite split_app by exact Hpd. rewrite split_plain.
  2:{ rewrite !contains_cons, Hpn. now destruct Hf as [-> | ->]. }
  cbv beta iota. cbn [map].
  assert (unquote_item (String "2" (String f name)) = String "/" name) as ->
    by now destruct Hf as [-> | ->].
  cbn [String.concat]. apply utf8_replace_ascii.
  now rewrite all_ascii_app, all_ascii_cons, Hd, Hn.
Qed.

(** X10.  A URL whose last segment holds the path of the file with its
    slash escaped ([decks%2FFrench.apkg], as a storage bucket writes it)
    gives the file name alone: the second split drops the directory that
    decoding has brought out.  [dir] and [name] are plain ASCII strings. *)
Theorem derive_filename_escaped_path (E : Type) (prefix dir name query : string) (f : ascii) :
  f = "F"%char \/ f = "f"%char ->
  all_ascii dir = true -> all_ascii name = true ->
  contains "/" dir = false -> contains "?" dir = false -> contains "%" dir = false ->
  contains "/" name = false -> contains "?" name = false -> contains "%" name = false ->
  contains "/" query = false ->
  Updater.derive_filename (E := E)
    (JStr (prefix ++ "/" ++ dir ++ String "%" (String "2" (String f name))
           ++ "?" ++ query))
  = ret name.
Proof.
  intros Hf Had Han Hd1 Hd2 Hd3 Hn1 Hn2 Hn3 Hq.
  rewrite derive_filename_key, !string_app_cons, !string_app_nil_l.
  rewrite lookup_key_after_slash. unfold lookup_key.
  set (escaped := dir ++ String "%" (String "2" (String f name))).
  assert (dir ++ String "%" (String "2" (String f (name ++ String "?" query)))
          = escaped ++ String "?" query) as ->.
  { unfold escaped. now rewrite string_app_assoc, !string_app_cons. }
  assert (contains "/" escaped = false) as He1
    by (unfold escaped; rewrite contains_app, !contains_cons, Hd1, Hn1;
        now destruct Hf as [-> | ->]).
  assert (contains "?" escaped = false) as He2
    by (unfold escaped; rewrite contains_app, !contains_cons, Hd2, Hn2;
        now destruct Hf as [-> | ->]).
  rewrite (final_segment_plain (escaped ++ String "?" query))
    by now rewrite contains_app, contains_cons, He1, Hq.
  rewrite strip_query_app by exact He2. unfold escaped.
  rewrite unquote_escaped_slash by assumption.
  now rewrite final_segment_after_slash, final_segment_plain.
Qed.

Lemma derive_filename_escaped_path_witness :
  (("F"%char = "F"%char \/ "F"%char = "f"%char)
   /\ all_ascii "decks" = true /\ all_ascii "French.apkg" = true
   /\ contains "/" "decks" = false /\ contains "?" "decks" = false
   /\ contains "%" "decks" = false
   /\ contains "/" "French.apkg" = false /\ contains "?" "French.apkg" = false
   /\ contains "%" "French.apkg" = false
   /\ contains "/" "alt=media" = false)
  /\ Updater.derive_filename (E := Updater.event)
       (JStr ("https://storage.example/v0/b/bucket/o" ++ "/" ++ "decks"
              ++ String "%" (String "2" (String "F" "French.apkg"))
              ++ "?" ++ "alt=media"))
     = ret "French.apkg".
Proof.
  split; [repeat split; left; reflexivity |].
  exact (derive_filename_escaped_path Updater.event
           "https://storage.example/v0/b/bucket/o" "decks" "French.apkg"
           "alt=media" "F" (or_introl eq_refl)
           eq_refl eq_refl eq_refl eq_refl eq_refl eq_refl eq_refl eq_refl eq_refl).
Defined.

End LookupKeyMore.

(** ** Discovery *)

Section NodeInduction.
Variable P : Counter.node -> Prop.
Hypothesis HFile : forall st_size body, P (Counter.File st_size body).
Hypothesis HDir :
  forall children, Forall (fun nc => P (snd nc)) children -> P (Counter.Dir children).

(** Induction on a tree, with the hypothesis for every child. *)
Lemma node_nested_ind (n : Counter.node) : P n.
Proof.
  revert n.
  exact (fix rec (n : Counter.node) : P n :=
    match n with
    | Counter.File st_size body => HFile st_size body
    | Counter.Dir children =>
        HDir children
          ((fix all (l : list (string * Counter.node))
              : Forall (fun nc => P (snd nc)) l :=
              match l with
              | [] => @List.Forall_nil _ _
              | nc :: r => @List.Forall_cons _ _ nc r (rec (snd nc)) (all r)
              end) children)
    end).
Qed.

End NodeInduction.

Section Discovery.
Import Py Disk Design Notions.

(** The walk of a directory: its archives, then the walks of its
    subdirectories. *)
Lemma walk_dir (root : string) (rel : list string)
  (children : list (string * Counter.node)) :
  Counter.walk root rel (Counter.Dir children)
  = flat_map
      (fun nc =>
         match snd nc with
         | Counter.File _ _ =>
             if Counter.endswith (fst nc) ".apkg"
             then [{| Counter.file_path := Counter.join root (fst nc);
                      Counter.rel_parts := rel ++ [fst nc];
                      Counter.file := snd nc |}]
             else []
         | Counter.Dir _ => []
         end) children
    ++ flat_map
         (fun nc =>
            match snd nc with
            | Counter.File _ _ => []
            | Counter.Dir _ =>
                Counter.walk (Counter.join root (fst nc)) (rel ++ [fst nc]) (snd nc)
            end) children.
Proof.
  simpl. f_equal.
  - induction children as [|[name child] rest IH]; [reflexivity |].
    simpl. rewrite IH. destruct child; [| reflexivity].
    now destruct (Counter.endswith name ".apkg").
  - induction children as [|[name child] rest IH]; [reflexivity |].
    simpl. rewrite IH. now destruct child.
Qed.

Lemma joined_snoc (root : string) (names : list string) (name : string) :
  joined root (names ++ [name]) = Counter.join (joined root names) name.
Proof. unfold joined. now rewrite fold_left_app. Qed.

Lemma walk_sound (top : Counter.node) :
  forall (root : string) (rel : list string) (f : Counter.found),
    In f (Counter.walk root rel top) ->
    exists names name st_size body,
      below top names (Counter.File st_size body)
      /\ last names = Some name
      /\ Counter.endswith name ".apkg" = true
      /\ f = {| Counter.file_path := joined root names;
                Counter.rel_parts := rel ++ names;
                Counter.file := Counter.File st_size body |}.
Proof.
  induction top as [st_size body | children IH] using node_nested_ind;
    intros root rel f; [intros [] |].
  rewrite walk_dir, in_app_iff, !in_flat_map.
  intros [([name child] & Hin & Hf) | ([name child] & Hin & Hf)]; simpl in Hf.
  - destruct child as [st_size body |]; [| destruct Hf].
    destruct (Counter.endswith name ".apkg") eqn:Hend; [| destruct Hf].
    destruct Hf as [<- | []].
    exists [name], name, st_size, body. repeat split; auto.
    econstructor; [exact Hin | constructor].
  - destruct child as [| grandchildren]; [destruct Hf |].
    rewrite Forall_forall in IH.
    destruct (IH (name, Counter.Dir grandchildren)
                 ltac:(now apply list_elem_of_In) _ _ _ Hf)
      as (names & last_name & st_size & body & Hb & Hl & Hend & ->).
    exists (name :: names), last_name, st_size, body. repeat split; auto.
    + econstructor; eauto.
    + destruct names; [discriminate | exact Hl].
    + now rewrite <- app_assoc.
Qed.

Lemma below_nil_inv (top n : Counter.node) : below top [] n -> n = top.
Proof. now inversion 1. Qed.

Lemma below_cons_inv (top n : Counter.node) (first : string) (rest : list string) :
  below top (first :: rest) n ->
  exists children child,
    top = Counter.Dir children /\ In (first, child) children /\ below child rest n.
Proof. inversion 1; subst. eauto. Qed.

Lemma walk_complete (names : list string) :
  forall (top : Counter.node) (root : string) (rel : list string)
         (name : string) (st_size : Counter.off_t) (body : Counter.archive),
    below top names (Counter.File st_size body) ->
    last names = Some name ->
    Counter.endswith name ".apkg" = true ->
    In {| Counter.file_path := joined root names;
          Counter.rel_parts := rel ++ names;
          Counter.file := Counter.File st_size body |}
       (Counter.walk root rel top).
Proof.
  induction names as [|first rest IH]; intros top root rel name st_size body Hb Hl Hend;
    [discriminate |].
  apply below_cons_inv in Hb as (children & child & -> & Hin & Hchild).
  rewrite walk_dir, in_app_iff, !in_flat_map.
  destruct rest as [|second rest].
  - apply below_nil_inv in Hchild as <-. injection Hl as <-.
    left. exists (first, Counter.File st_size body). split; [exact Hin |].
    simpl. rewrite Hend. now left.
  - right. exists (first, child). split; [exact Hin |].
    pose proof Hchild as Hdir.
    apply below_cons_inv in Hdir as (grandchildren & _ & -> & _ & _). simpl.
    specialize (IH (Counter.Dir grandchildren) (Counter.join root first)
                   (rel ++ [first]) name st_size body Hchild Hl Hend).
    now rewrite <- app_assoc in IH.
Qed.

(** X11.  The walk finds exactly the files that lie below the directory,
    at any depth, and whose name ends in [.apkg]; the path it records for
    one is the directory joined with the names that lead to the file. *)
Theorem walk_finds_exactly_the_archives (top : Counter.node) (root : string)
  (rel : list string) (f : Counter.found) :
  In f (Counter.walk root rel top) <->
  exists names name st_size body,
    below top names (Counter.File st_size body)
    /\ last names = Some name
    /\ Counter.endswith name ".apkg" = true
    /\ f = {| Counter.file_path := joined root names;
              Counter.rel_parts := rel ++ names;
              Counter.file := Counter.File st_size body |}.
Proof.
  split; [apply walk_sound |].
  intros (names & name & st_size & body & Hb & Hl & Hend & ->).
  eapply walk_complete; eauto.
Qed.

End Discovery.

(** ** The order of the results *)

Section PathOrder.
Import Py Disk Design Notions.

Lemma insert_sorted_order (x : Counter.found) (l : list Counter.found) :
  in_path_order l = true -> in_path_order (Counter.insert_sorted x l) = true.
Proof.
  induction l as [|y l IH]; [reflexivity |].
  intros Hl. simpl. destruct (Counter.path_le x y) eqn:Hxy.
  - simpl. rewrite Hxy. exact Hl.
  - assert (Counter.path_le y x = true) as Hyx.
    { unfold Counter.path_le in *.
      destruct (String.leb_total (Counter.file_path x) (Counter.file_path y))
        as [H | H]; congruence. }
    destruct l as [|z l].
    + simpl. now rewrite Hyx.
    + simpl in Hl. apply andb_prop in Hl as [Hyz Hl].
      specialize (IH Hl). simpl in IH |- *.
      destruct (Counter.path_le x z); simpl in *.
      * now rewrite Hyx.
      * now rewrite Hyz.
Qed.

Lemma insert_sorted_perm (x : Counter.found) (l : list Counter.found) :
  Permutation (Counter.insert_sorted x l) (x :: l).
Proof.
  induction l as [|y l IH]; [reflexivity |]. simpl.
  destruct (Counter.path_le x y); [reflexivity |].
  rewrite IH. apply perm_swap.
Qed.

(** X12.  [sorted] returns the same archives, each as often as it was
    found, with every path at most the path that follows it. *)
Theorem sorted_orders_the_paths (l : list Counter.found) :
  Permutation (Counter.sorted l) l /\ in_path_order (Counter.sorted l) = true.
Proof.
  induction l as [|x l [IHp IHo]]; [split; reflexivity |]. simpl. split.
  - rewrite insert_sorted_perm. now constructor.
  - now apply insert_sorted_order.
Qed.

End PathOrder.

(** ** The fields of a record *)

Section RecordFields.
Import Py Disk Design Notions.
Open Scope string_scope.

Lemma after_last_plain (s : string) :
  contains "/" s = false -> Counter.after_last "/" s = s.
Proof.
  destruct s as [|c s]; [reflexivity |].
  rewrite contains_cons. intros H. apply orb_false_elim in H as [Hc Hs].
  simpl. now rewrite Hs, Ascii.eqb_sym, Hc.
Qed.

Lemma after_last_app (a b : string) :
  contains "/" b = false -> Counter.after_last "/" (a ++ String "/" b) = b.
Proof.
  intros Hb. induction a as [|c a IH].
  - rewrite string_app_nil_l. simpl. now rewrite Hb.
  - rewrite string_app_cons. simpl.
    now rewrite contains_app, contains_cons, Ascii.eqb_refl, orb_true_r.
Qed.

Lemma up_to_last_app (a b : string) :
  contains "/" b = false ->
  Counter.up_to_last "/" (a ++ String "/" b) = a ++ String "/" "".
Proof.
  intros Hb. induction a as [|c a IH].
  - rewrite !string_app_nil_l. simpl. now rewrite Hb.
  - rewrite !string_app_cons. simpl.
    now rewrite contains_app, contains_cons, Ascii.eqb_refl, orb_true_r, IH.
Qed.

Lemma rstrip_app_sep (a : string) :
  Counter.rstrip "/" (a ++ String "/" "") = Counter.rstrip "/" a.
Proof.
  induction a as [|c a IH]; [reflexivity |].
  rewrite string_app_cons. simpl. now rewrite IH.
Qed.

Lemma rstrip_plain (d : string) :
  contains "/" d = false -> Counter.rstrip "/" d = d.
Proof.
  induction d as [|c d IH]; [reflexivity |].
  rewrite contains_cons. intros H. apply orb_false_elim in H as [Hc Hd].
  simpl. rewrite (IH Hd). destruct d; [| reflexivity].
  now rewrite Ascii.eqb_sym, Hc.
Qed.

Lemma rstrip_app_name (x d : string) :
  entry_name d = true -> Counter.rstrip "/" (x ++ d) = x ++ d.
Proof.
  unfold entry_name. intros H. apply andb_prop in H as [Hne Hd].
  apply negb_true_iff in Hne, Hd. apply String.eqb_neq in Hne.
  induction x as [|c x IH].
  - rewrite string_app_nil_l. now apply rstrip_plain.
  - rewrite string_app_cons. simpl. rewrite IH.
    destruct (x ++ d) eqn:Hxd; [| reflexivity].
    destruct x; [| discriminate]. now rewrite string_app_nil_l in Hxd.
Qed.

Lemma endswith_plain (d : string) :
  contains "/" d = false -> Counter.endswith d "/" = false.
Proof.
  induction d as [|c d IH]; [reflexivity |].
  rewrite contains_cons. intros H. apply orb_false_elim in H as [Hc Hd].
  cbn [Counter.endswith].
  destruct (String.eqb (String c d) "/") eqn:He; [| exact (IH Hd)].
  apply String.eqb_eq in He. injection He as -> _. discriminate.
Qed.

Lemma endswith_app_name (x d : string) :
  entry_name d = true -> Counter.endswith (x ++ d) "/" = false.
Proof.
  unfold entry_name. intros H. apply andb_prop in H as [Hne Hd].
  apply negb_true_iff in Hne, Hd. apply String.eqb_neq in Hne.
  induction x as [|c x IH].
  - rewrite string_app_nil_l. now apply endswith_plain.
  - rewrite string_app_cons. cbn [Counter.endswith].
    destruct (String.eqb (String c (x ++ d)) "/") eqn:He; [| exact IH].
    apply String.eqb_eq in He. injection He as _ Hxd.
    destruct x; [now rewrite string_app_nil_l in Hxd | discriminate].
Qed.

(** A name that does not begin with a slash is appended. *)
Lemma join_plain (a b : string) :
  contains "/" b = false ->
  Counter.join a b
  = if String.eqb a "" || Counter.endswith a "/" then a ++ b else a ++ "/" ++ b.
Proof.
  intros Hb. unfold Counter.join. destruct b as [|c b]; [reflexivity |].
  rewrite contains_cons in Hb. apply orb_false_elim in Hb as [Hc _].
  destruct c as [[] [] [] [] [] [] [] []]; try reflexivity.
  simpl in Hc. discriminate.
Qed.

Lemma endswith_slash_inv (a : string) :
  Counter.endswith a "/" = true -> exists a', a = a' ++ String "/" "".
Proof.
  induction a as [|c a IH]; [discriminate |]. cbn [Counter.endswith].
  destruct (String.eqb (String c a) "/") eqn:Hca.
  - apply String.eqb_eq in Hca. rewrite Hca. intros _. now exists "".
  - intros He. destruct (IH He) as (a' & ->).
    exists (String c a'). now rewrite string_app_cons.
Qed.

(** Joining a name to a path puts the name after the path or after the
    path and a slash. *)
Lemma join_name (a b : string) :
  contains "/" b = false ->
  Counter.join a b = b \/ exists a', Counter.join a b = a' ++ String "/" b.
Proof.
  intros Hb. rewrite (join_plain a b Hb).
  destruct (String.eqb a "") eqn:Ha; simpl.
  - apply String.eqb_eq in Ha as ->. now left.
  - right. destruct (Counter.endswith a "/") eqn:He.
    + destruct (endswith_slash_inv a He) as (a' & ->). exists a'.
      now rewrite string_app_assoc, string_app_cons, string_app_nil_l.
    + exists a. now rewrite string_app_cons, string_app_nil_l.
Qed.

Lemma join_after_name (x d b : string) :
  entry_name d = true ->
  contains "/" b = false ->
  Counter.join (x ++ d) b = (x ++ d) ++ String "/" b.
Proof.
  intros Hd Hb. pose proof Hd as Hd'. unfold entry_name in Hd'.
  apply andb_prop in Hd' as [Hne _]. apply negb_true_iff, String.eqb_neq in Hne.
  rewrite (join_plain _ b Hb).
  assert (String.eqb (x ++ d) "" = false) as ->.
  { apply String.eqb_neq. destruct x; [now rewrite string_app_nil_l | discriminate]. }
  rewrite (endswith_app_name x d Hd). simpl.
  now rewrite string_app_cons, string_app_nil_l.
Qed.

(** The name of a file joined to a directory path that ends in the name of
    a directory: the base name is the name of the file, and the base name
    of the directory part is the name of the directory. *)
Lemma basename_dirname_join (root d name : string) :
  entry_name d = true ->
  contains "/" name = false ->
  Counter.basename (Counter.join (Counter.join root d) name) = name
  /\ Counter.basename (Counter.dirname (Counter.join (Counter.join root d) name)) = d.
Proof.
  intros Hd Hname. pose proof Hd as Hd'. unfold entry_name in Hd'.
  apply andb_prop in Hd' as [Hne Hds]. apply negb_true_iff in Hne, Hds.
  apply String.eqb_neq in Hne.
  assert (exists x, Counter.join root d = x ++ d) as (x & Hx).
  { destruct (join_name root d Hds) as [-> | (a' & ->)].
    - now exists "".
    - exists (a' ++ String "/" "").
      now rewrite string_app_assoc, string_app_cons, string_app_nil_l. }
  rewrite Hx, (join_after_name x d name Hd Hname). unfold Counter.basename.
  split; [now apply after_last_app |].
  unfold Counter.dirname. rewrite up_to_last_app by exact Hname.
  rewrite rstrip_app_sep, (rstrip_app_name x d Hd).
  assert (String.eqb (x ++ d) "" = false) as ->.
  { apply String.eqb_neq. destruct x; [now rewrite string_app_nil_l | discriminate]. }
  assert (String.eqb ((x ++ d) ++ String "/" "") "" = false) as ->.
  { apply String.eqb_neq. destruct (x ++ d); discriminate. }
  simpl. rewrite <- Hx.
  destruct (join_name root d Hds) as [-> | (a' & ->)];
    [now apply after_last_plain | now apply after_last_app].
Qed.

Lemma basename_join (a name : string) :
  contains "/" name = false -> Counter.basename (Counter.join a name) = name.
Proof.
  intros Hname. unfold Counter.basename.
  destruct (join_name a name Hname) as [-> | (a' & ->)];
    [now apply after_last_plain | now apply after_last_app].
Qed.

End RecordFields.

Section RecordFieldsMore.
Import Py Disk Design Notions.

(** X13.  The record of an archive the walk has found names the archive
    by its own name; for an archive in a subdirectory, [folder] is the name
    of the directory that holds it and [path] the names from the root,
    joined by slashes.  Names are directory entries: the name of the file
    has no slash, the name of the directory is not empty and has none. *)
Theorem record_names_the_archive (top : Counter.node) (root : string)
  (f : Counter.found) (count : Z) :
  In f (Counter.walk root [] top) ->
  (forall (before : list string) (name : string),
      Counter.rel_parts f = before ++ [name] ->
      contains "/" name = false ->
      subscript (E := Counter.event) (record_of f count) "file" = ret (JStr name))
  /\ (forall (dirs : list string) (d name : string),
        Counter.rel_parts f = dirs ++ [d; name] ->
        entry_name d = true ->
        contains "/" name = false ->
        record_of f count
        = JObj [("folder", JStr d); ("file", JStr name);
                ("path", JStr (String.concat "/" (dirs ++ [d; name])));
                ("count", JInt count); ("size", JInt (Counter.st_size f))]).
Proof.
  intros Hin.
  apply walk_sound in Hin as (names & last_name & st_size & body & _ & _ & _ & ->).
  change ([] ++ names) with names. split.
  - intros before name Hnames Hname. simpl in Hnames. subst names.
    unfold record_of, subscript. simpl.
    now rewrite joined_snoc, basename_join.
  - intros dirs d name Hnames Hd Hname. simpl in Hnames. subst names.
    unfold record_of, Counter.relpath. simpl.
    change (dirs ++ [d; name]) with (dirs ++ [d] ++ [name]).
    rewrite app_assoc, !joined_snoc.
    destruct (basename_dirname_join (joined root dirs) d name Hd Hname) as [-> ->].
    now rewrite <- app_assoc.
Qed.

Lemma record_names_the_archive_witness :
  In sample_empty_found (Counter.walk "decks" [] sample_tree)
  /\ (Counter.rel_parts sample_empty_found = [] ++ ["sub"; "a.apkg"]
      /\ entry_name "sub" = true
      /\ contains "/" "a.apkg" = false)
  /\ record_of sample_empty_found 0
     = JObj [("folder", JStr "sub"); ("file", JStr "a.apkg");
             ("path", JStr "sub/a.apkg");
             ("count", JInt 0); ("size", JInt 2048)].
Proof.
  assert (In sample_empty_found (Counter.walk "decks" [] sample_tree)) as Hin
    by (vm_compute; right; left; reflexivity).
  split; [exact Hin |]. split; [repeat split |].
  exact (proj2 (record_names_the_archive sample_tree "decks" sample_empty_found 0 Hin)
           [] "sub" "a.apkg" eq_refl eq_refl eq_refl).
Defined.

End RecordFieldsMore.

(** ** From the counter to the updater *)

Section Pipeline.
Import Py Disk Design Notions.

Lemma count_entry_record {E} (f : Counter.found) (count : Z)
  (m : gmap string (json * json)) :
  Updater.count_entry (E := E) (record_of f count) m
  = ret (<[Counter.basename (Counter.file_path f)
           := (JInt count, JInt (Counter.st_size f))]> m).
Proof. reflexivity. Qed.

Lemma build_count_map_records {E} (files : list Counter.found)
  (m : gmap string (json * json)) :
  (forall name c s, m !! name = Some (c, s) -> exists n z, c = JInt n /\ s = JInt z) ->
  exists count_map,
    Updater.build_count_map (E := E) (records files) m = ret count_map
    /\ (forall name c s, count_map !! name = Some (c, s) ->
                         exists n z, c = JInt n /\ s = JInt z).
Proof.
  revert m; induction files as [|f files IH]; intros m Hm.
  - exists m. auto.
  - change (records (f :: files))
      with (match count_of f with
            | Some count => [record_of f count]
            | None => []
            end ++ records files).
    destruct (count_of f) as [count|]; cbn [app Updater.build_count_map];
      [| now apply IH].
    rewrite count_entry_record, bind_ret. apply IH.
    intros name c s. destruct (decide (Counter.basename (Counter.file_path f) = name))
      as [-> | Hne].
    + rewrite lookup_insert_eq. intros [= <- <-]. eauto.
    + rewrite lookup_insert_ne by exact Hne. apply Hm.
Qed.

Lemma unique_keys_records (files : list Counter.found) :
  unique_keys (JArr (records files)) = true.
Proof.
  induction files as [|f files IH]; [reflexivity |].
  change (records (f :: files))
    with (match count_of f with
          | Some count => [record_of f count]
          | None => []
          end ++ records files).
  destruct (count_of f) as [count|]; [| exact IH].
  simpl in *. exact IH.
Qed.

(** X14.  The document a run of the counter writes is one the updater
    reads without an error: the comprehension of the updater builds a count
    mapping from it, whose counts and sizes are integers, and no dictionary
    of the document has a key twice. *)
Theorem counter_results_feed_the_updater (argv : list string)
  (at_path : string -> option Counter.node) (before : option content) :
  Counter.exit (Counter.execute argv at_path before) = 0%Z ->
  exists results count_map,
    Counter.results_file (Counter.execute argv at_path before)
    = Some (Doc (JArr results))
    /\ Updater.build_count_map (E := Updater.event) results ∅ = ret count_map
    /\ unique_keys (JArr results) = true
    /\ (forall name c s, count_map !! name = Some (c, s) ->
                         exists n z, c = JInt n /\ s = JInt z).
Proof.
  intros Hexit. pose proof (counter_execute_cases argv at_path before) as H.
  cbv zeta in H.
  assert (forall P : Prop,
             Counter.exit (Counter.execute argv at_path before) = 1%Z /\ P -> False)
    as Hno by (intros P [H1 _]; rewrite Hexit in H1; discriminate).
  destruct (argv !! 1%nat) as [p|]; [| now apply Hno in H].
  destruct (at_path p) as [top|]; [| now apply Hno in H].
  destruct (Counter.walk p [] top) as [|f files]; [now apply Hno in H |].
  destruct H as [_ Hr].
  destruct (build_count_map_records (E := Updater.event)
              (Counter.sorted (f :: files)) ∅) as (cm & Hcm & Hints).
  { intros name c s Hk. now rewrite lookup_empty in Hk. }
  exists (records (Counter.sorted (f :: files))), cm.
  split; [exact Hr |]. split; [exact Hcm |].
  split; [apply unique_keys_records | exact Hints].
Qed.

Lemma counter_results_feed_the_updater_witness :
  let run := Counter.execute ["get-card-counts.py"; "decks"] sample_disk None in
  Counter.exit run = 0%Z
  /\ exists results count_map,
       Counter.results_file run = Some (Doc (JArr results))
       /\ Updater.build_count_map (E := Updater.event) results ∅ = ret count_map
       /\ unique_keys (JArr results) = true
       /\ (forall name c s, count_map !! name = Some (c, s) ->
                            exists n z, c = JInt n /\ s = JInt z).
Proof.
  intros run.
  assert (Counter.exit run = 0%Z) as Hexit by (vm_compute; reflexivity).
  split; [exact Hexit |].
  exact (counter_results_feed_the_updater ["get-card-counts.py"; "decks"]
           sample_disk None Hexit).
Defined.

End Pipeline.

(** ** What the counter prints *)

Section CounterTrace.
Import Py Disk Design Notions.

(** X15.  [get_card_count] never raises.  It prints nothing when it
    returns a count; it returns no count and prints nothing exactly for an
    archive that was extracted and holds neither database name; otherwise
    it prints the one exception that extracting or querying raised. *)
Theorem get_card_count_never_raises (apkg : Counter.archive) :
  exists log count,
    Counter.get_card_count apkg = (log, Ok count)
    /\ (count <> None -> log = [])
    /\ (count = None /\ log = [] <->
        exists entries,
          apkg = Counter.Extracted entries
          /\ Counter.find_db Counter.db_names entries = None)
    /\ (log <> [] ->
        count = None
        /\ (log = [Counter.PrintError BadZipFile] /\ apkg = Counter.BadArchive
            \/ log = [Counter.PrintError DatabaseError]
               /\ exists entries db,
                    apkg = Counter.Extracted entries
                    /\ Counter.find_db Counter.db_names entries = Some db)).
Proof.
  rewrite get_card_count_cases. destruct apkg as [|entries].
  - exists [Counter.PrintError BadZipFile], None.
    split; [reflexivity |]. split; [congruence |]. split.
    + split; [intros [_ H]; discriminate | intros (e & H & _); discriminate].
    + intros _. auto.
  - destruct (Counter.find_db Counter.db_names entries) as [db|] eqn:Hdb.
    + destruct (entries !! db) as [[count|]|] eqn:He.
      * exists [], (Some count). split; [reflexivity |]. split; [reflexivity |].
        split; [| congruence].
        split; [intros [H _]; discriminate |].
        intros (e & [= <-] & H). congruence.
      * exists [Counter.PrintError DatabaseError], None.
        split; [reflexivity |]. split; [congruence |]. split.
        -- split; [intros [_ H]; discriminate |].
           intros (e & [= <-] & H). congruence.
        -- intros _. split; [reflexivity |]. right. eauto.
      * exists [Counter.PrintError DatabaseError], None.
        split; [reflexivity |]. split; [congruence |]. split.
        -- split; [intros [_ H]; discriminate |].
           intros (e & [= <-] & H). congruence.
        -- intros _. split; [reflexivity |]. right. eauto.
    + exists [], None. split; [reflexivity |]. split; [reflexivity |].
      split; [| congruence]. split; eauto.
Qed.










(** X17.  Given the path of a file instead of a directory, even the path
    of an archive, the counter finds no archive: it prints the two lines,
    ends with status 1 and writes nothing. *)
Theorem counter_given_a_file (argv : list string)
  (at_path : string -> option Counter.node) (before : option content)
  (p : string) (st_size : Counter.off_t) (body : Counter.archive) :
  argv !! 1%nat = Some p ->
  at_path p = Some (Counter.File st_size body) ->
  Counter.execute argv at_path before
  = {| Counter.trace := [Counter.Print (Counter.Scanning p);
                         Counter.Print Counter.NoArchives];
       Counter.exit := 1;
       Counter.results_file := before |}.
Proof.
  intros Ha Hp. pose proof (main_cases argv at_path) as H.
  rewrite Ha, Hp in H. simpl in H.
  unfold Counter.execute, Counter.execute_on. now rewrite H.
Qed.

Lemma counter_given_a_file_witness :
  let argv := ["get-card-counts.py"; "decks/b.apkg"] in
  (argv !! 1%nat = Some "decks/b.apkg"
   /\ sample_disk_file "decks/b.apkg"
      = Some (Counter.File {| Counter.off_val := 5242880; Counter.off_range := eq_refl |}
                (Counter.Extracted sample_entries_cards)))
  /\ Counter.execute argv sample_disk_file None
     = {| Counter.trace := [Counter.Print (Counter.Scanning "decks/b.apkg");
                            Counter.Print Counter.NoArchives];
          Counter.exit := 1;
          Counter.results_file := None |}.
Proof.
  intros argv. split; [split; reflexivity |].
  exact (counter_given_a_file argv sample_disk_file None "decks/b.apkg" _ _
           eq_refl eq_refl).
Defined.

End CounterTrace.

(** ** What the updater prints *)

Section UpdaterTrace.
Import Py Disk Design Notions.

Lemma update_deck_lines (count_map : gmap string (json * json)) (deck : json) :
  entry_ok count_map deck = true ->
  fst (Updater.update_deck count_map deck) = change_lines count_map deck.
Proof.
  destruct deck as [| | | | |items|fields]; try discriminate.
  unfold entry_ok, change_lines, needs_update, looked_up.
  unfold Updater.update_deck, subscript.
  destruct (dict_get "downloadUrl" fields) as [[| | | |url| |]|] eqn:Hurl;
    try discriminate.
  mstep. rewrite derive_filename_key. mstep.
  destruct (count_map !! lookup_key url) as [[new_count new_size]|] eqn:Hcm;
    [| reflexivity].
  rewrite !get_default_stored. mstep.
  destruct (py_ne (stored fields "cardCount") new_count) eqn:Hc;
  destruct (py_ne (stored fields "size") new_size) eqn:Hs; simpl orb; cbv iota;
    try reflexivity.
  all: intros H; apply andb_prop in H as [Hn H];
    unfold has_key in Hn;
    destruct (dict_get "name" fields) as [name|] eqn:Hname; [| discriminate].
  1, 3: apply andb_prop in H as [H1 H2];
    rewrite (true_div_mib_divisible _ H1), (true_div_mib_divisible _ H2).
  all: unfold store, stored; mstep; simpl; rewrite ?Hname; reflexivity.
Qed.

Lemma update_decks_lines (count_map : gmap string (json * json))
  (decks : list json) (n : nat) :
  forallb (entry_ok count_map) decks = true ->
  fst (Updater.update_decks count_map decks n)
  = flat_map (change_lines count_map) decks.
Proof.
  revert n; induction decks as [|deck rest IH]; intros n; [reflexivity |].
  simpl. intros H. apply andb_prop in H as [Hok Hoks].
  destruct (update_deck_ok count_map deck Hok) as (l1 & Hd & _).
  pose proof (update_deck_lines count_map deck Hok) as Hl. rewrite Hd in Hl.
  simpl in Hl. subst l1.
  destruct (update_decks_ok count_map rest
              (if needs_update count_map deck then S n else n) Hoks)
    as (l2 & Hr & _).
  pose proof (IH (if needs_update count_map deck then S n else n) Hoks) as Hl2.
  rewrite Hr in Hl2. simpl in Hl2. subst l2.
  rewrite Hd, bind_pair_ok. cbv beta iota. rewrite Hr, bind_pair_ok. simpl.
  now rewrite app_nil_r.
Qed.

(** X18.  The whole output of a run that goes through: deck by deck, in
    the order of the catalog, the lines of the decks it updates (the name,
    a line for the count only if the count differs, a line for the size
    only if the size differs), then, if a deck was updated, the write of the
    catalog and the number of updated decks, and otherwise the message that
    the counts are accurate. *)
Theorem updater_prints_a_line_per_changed_field (fs : Updater.files)
  (items : list json) (count_map : gmap string (json * json))
  (top : list (string * json)) (decks : list json) :
  Updater.counts_file fs = Some (Doc (JArr items)) ->
  Updater.build_count_map (E := Updater.event) items ∅ = ret count_map ->
  Updater.catalog_file fs = Some (Doc (JObj top)) ->
  dict_get "decks" top = Some (JArr decks) ->
  forallb (entry_ok count_map) decks = true ->
  let updated := length (List.filter (needs_update count_map) decks) in
  Updater.trace (Updater.execute fs)
  = flat_map (change_lines count_map) decks
    ++ (if (0 <? updated)%nat
        then [Updater.WriteCatalog
                (JObj (dict_set "decks"
                         (JArr (map (reconciled count_map) decks)) top));
              Updater.Print (Updater.UpdatedDecks updated)]
        else [Updater.Print Updater.AlreadyAccurate]).
Proof.
  intros Hc Hmap Hcat Hd Hok updated.
  destruct (reconcile_ok items count_map top decks Hmap Hd Hok) as (log & Hr).
  pose proof (reconcile_returns _ _ _ _ _ Hr)
    as (ac & items' & cm' & top' & dv & decks' & Hac & Hit & Hmap' & Htop & Hd'
        & Hit' & _ & Hu & _ & _).
  injection Hac as <-. injection Hit as <-. rewrite Hmap in Hmap'.
  injection Hmap' as <-. injection Htop as <-. rewrite Hd in Hd'.
  injection Hd' as <-. injection Hit' as <-.
  pose proof (update_decks_lines count_map decks 0 Hok) as Hlines.
  rewrite Hu in Hlines. simpl in Hlines.
  pose proof (execute_cases fs) as H. rewrite Hc, Hcat, Hr in H.
  subst updated. clear Hu. revert Hr H.
  destruct (length (List.filter (needs_update count_map) decks)) as [|n];
    intros Hr H.
  - rewrite H. simpl.
    pose proof (reconcile_zero_silent _ _ _ _ Hr) as Hsilent.
    now rewrite <- Hlines, Hsilent.
  - rewrite H. simpl. now rewrite Hlines.
Qed.

Lemma updater_prints_a_line_per_changed_field_witness :
  let fs :=
    {| Updater.counts_file := Some (Doc french_results);
       Updater.catalog_file :=
         Some (Doc (french_catalog sample_url (JInt 1000) (JInt 5242880))) |} in
  let items := [JObj [("folder", JStr "Languages"); ("file", JStr "French.apkg");
                      ("path", JStr "Languages/French.apkg");
                      ("count", JInt 1200); ("size", JInt 5242880)]] in
  let count_map : gmap string (json * json) :=
    <["French.apkg" := (JInt 1200, JInt 5242880)]> ∅ in
  let decks := [french_deck sample_url (JInt 1000) (JInt 5242880)] in
  let top := [("version", JInt 2); ("decks", JArr decks)] in
  (Updater.counts_file fs = Some (Doc (JArr items))
   /\ Updater.build_count_map (E := Updater.event) items ∅ = ret count_map
   /\ Updater.catalog_file fs = Some (Doc (JObj top))
   /\ dict_get "decks" top = Some (JArr decks)
   /\ forallb (entry_ok count_map) decks = true)
  /\ Updater.trace (Updater.execute fs)
     = [Updater.Print (Updater.DeckChanged (JStr "French"));
        Updater.Print (Updater.CardsChanged (JInt 1000) (JInt 1200));
        Updater.WriteCatalog (french_catalog sample_url (JInt 1200) (JInt 5242880));
        Updater.Print (Updater.UpdatedDecks 1)].
Proof.
  intros fs items count_map decks top.
  assert (forallb (entry_ok count_map) decks = true) as Hok
    by (vm_compute; reflexivity).
  split.
  - split; [reflexivity |]. split; [reflexivity |]. split; [reflexivity |].
    split; [reflexivity | exact Hok].
  - rewrite (updater_prints_a_line_per_changed_field fs items count_map top decks
               eq_refl eq_refl eq_refl eq_refl Hok).
    vm_compute. reflexivity.
Defined.

(** X19.  Documents the updater cannot use.  It reads the results first:
    results that [json.load] does not read end the run with the exception
    that reading them raises, whatever the catalog is: [JSONDecodeError] for
    text that is not JSON, [UnicodeDecodeError] for bytes that are not text,
    [ValueError] for an integer literal that is too long.  With results that
    are an empty list, a catalog that is not read ends the run in the same
    way, a catalog without [decks] with [KeyError], and a catalog that is
    not a dictionary with [TypeError].  Nothing is printed and the files are
    as they were. *)
Theorem updater_unusable_documents (fs : Updater.files) (counts catalog : content) :
  Updater.counts_file fs = Some counts ->
  Updater.catalog_file fs = Some catalog ->
  let ends_with (e : exn) :=
    Updater.execute fs
    = {| Updater.trace := []; Updater.status := Raise e; Updater.disk := fs |} in
  match counts with
  | Unreadable e => ends_with e
  | Doc (JArr []) =>
      match catalog with
      | Unreadable e => ends_with e
      | Doc (JObj top) => dict_get "decks" top = None -> ends_with KeyError
      | Doc _ => ends_with TypeError
      end
  | Doc _ => True
  end.
Proof.
  intros Hc Hcat ends_with. subst ends_with. cbv beta.
  destruct counts as [e|[| | | | |[|item items]|fields]]; try exact I;
    try (apply (execute_raises fs _ _ [] _ Hc Hcat); reflexivity).
  destruct catalog as [e|[| | | | | |top]];
    try (apply (execute_raises fs _ _ [] _ Hc Hcat); reflexivity).
  intros Hd. apply (execute_raises fs _ _ [] _ Hc Hcat).
  unfold Updater.reconcile, load, iterate, subscript. mstep. simpl.
  mstep. now rewrite Hd.
Qed.

Lemma updater_unusable_documents_witness :
  let catalog := Doc (JObj [("version", JInt 2)]) in
  let no_text := {| Updater.counts_file := Some NotText;
                    Updater.catalog_file := Some catalog |} in
  let no_decks := {| Updater.counts_file := Some (Doc (JArr []));
                     Updater.catalog_file := Some catalog |} in
  (Updater.counts_file no_text = Some NotText
   /\ Updater.catalog_file no_text = Some catalog
   /\ Updater.counts_file no_decks = Some (Doc (JArr []))
   /\ Updater.catalog_file no_decks = Some catalog
   /\ dict_get "decks" [("version", JInt 2)] = None)
  /\ Updater.execute no_text
     = {| Updater.trace := []; Updater.status := Raise UnicodeDecodeError;
          Updater.disk := no_text |}
  /\ Updater.execute no_decks
     = {| Updater.trace := []; Updater.status := Raise KeyError;
          Updater.disk := no_decks |}.
Proof.
  intros catalog no_text no_decks. split; [repeat split |]. split.
  - exact (updater_unusable_documents no_text NotText catalog eq_refl eq_refl).
  - exact (updater_unusable_documents no_decks (Doc (JArr [])) catalog
             eq_refl eq_refl eq_refl).
Defined.

(** X20.  A missing file is no error.  When the results or the catalog
    is missing the updater prints one message, for the results if they are
    missing and for the catalog otherwise, returns normally and leaves the
    files as they are; the file that is there is not read, so that it may
    be one that is not JSON. *)
Theorem updater_missing_file_ends_the_run (fs : Updater.files) :
  Updater.counts_file fs = None \/ Updater.catalog_file fs = None ->
  Updater.execute fs
  = {| Updater.trace :=
         [Updater.Print (match Updater.counts_file fs with
                         | None => Updater.CountsNotFound
                         | Some _ => Updater.CatalogNotFound
                         end)];
       Updater.status := Ok tt; Updater.disk := fs |}.
Proof.
  intros H. destruct (Updater.counts_file fs) as [counts|] eqn:Hc.
  - destruct H as [H | H]; [discriminate |].
    exact (execute_catalog_missing fs counts Hc H).
  - exact (execute_counts_missing fs Hc).
Qed.

Lemma updater_missing_file_ends_the_run_witness :
  let fs := {| Updater.counts_file := Some NotJson;
               Updater.catalog_file := None |} in
  (Updater.counts_file fs = None \/ Updater.catalog_file fs = None)
  /\ Updater.execute fs
     = {| Updater.trace := [Updater.Print Updater.CatalogNotFound];
          Updater.status := Ok tt; Updater.disk := fs |}.
Proof.
  intros fs. split; [right; reflexivity |].
  exact (updater_missing_file_ends_the_run fs (or_intror eq_refl)).
Defined.

End UpdaterTrace.

(** ** The counter: where [os.stat] fails *)

Section StatFailures.
Import Py Disk Design Notions.

Lemma count_one_reachable (stat_fails : string -> bool) (f : Counter.found)
  (results : list json) :
  unreachable stat_fails f = false ->
  Counter.count_one stat_fails f results
  = Counter.count_one Counter.no_failure f results.
Proof.
  unfold unreachable, Counter.count_one, Counter.getsize, Counter.no_failure.
  now intros ->.
Qed.

Lemma count_each_reachable (stat_fails : string -> bool) (files : list Counter.found)
  (results : list json) :
  existsb (unreachable stat_fails) files = false ->
  Counter.count_each stat_fails files results = Counter.count_all files results.
Proof.
  unfold Counter.count_all.
  revert results; induction files as [|f files IH]; intros results; [reflexivity |].
  simpl. intros H. apply orb_false_elim in H as [Hf Hfiles].
  rewrite (count_one_reachable _ _ _ Hf).
  destruct (Counter.count_one Counter.no_failure f results) as [l [r|e]];
    [| reflexivity].
  unfold bind. now rewrite (IH r Hfiles).
Qed.

(** X21.  Failures of [os.stat] play a part only at the directory given
    and at the archives the walk finds in it: when [os.stat] reaches those,
    the run is the run on a disk on which it fails nowhere, whatever it
    does at other paths. *)
Theorem counter_run_where_stat_reaches (stat_fails : string -> bool)
  (argv : list string) (at_path : string -> option Counter.node)
  (before : option content) :
  (forall p top,
      argv !! 1%nat = Some p -> at_path p = Some top ->
      stat_fails p = false
      /\ existsb (unreachable stat_fails) (Counter.walk p [] top) = false) ->
  Counter.execute_on stat_fails argv at_path before
  = Counter.execute argv at_path before.
Proof.
  intros H. unfold Counter.execute, Counter.execute_on.
  enough (Counter.main stat_fails argv at_path
          = Counter.main Counter.no_failure argv at_path) as -> by reflexivity.
  unfold Counter.main, Counter.argument.
  destruct (length argv <? 2)%nat; [reflexivity |].
  destruct (argv !! 1%nat) as [p|]; [| reflexivity]. mstep.
  change (Counter.exists_at Counter.no_failure at_path p) with (at_path p).
  unfold Counter.exists_at.
  destruct (at_path p) as [top|] eqn:Hp; [| now destruct (stat_fails p)].
  destruct (H p top eq_refl Hp) as [-> Hfiles].
  destruct (Counter.walk p [] top) as [|f files]; [reflexivity |].
  rewrite count_each_reachable by (now rewrite existsb_unreachable_sorted).
  reflexivity.
Qed.

Lemma counter_run_where_stat_reaches_witness :
  let argv := ["get-card-counts.py"; "decks"] in
  let stat_fails := String.eqb "decks/readme.txt" in
  stat_fails "decks/readme.txt" = true
  /\ Counter.execute_on stat_fails argv sample_disk None
     = Counter.execute argv sample_disk None.
Proof.
  intros argv stat_fails. split; [reflexivity |].
  apply (counter_run_where_stat_reaches stat_fails argv sample_disk None).
  intros p top [= <-] [= <-]. split; vm_compute; reflexivity.
Defined.

End StatFailures.
